(** * gloo / gateway2: the plugin registry and the gateway deployer

    A shallow embedding of

    - [projects/gateway2/translator/plugins/registry/plugin_registry.go]
      (package [registry]): the classification of plugins by capability;
    - the gateway deployer (package [deployer]): the derivation of Helm
      values from a [Gateway], the decoding of the rendered manifest into
      objects, the stamping of namespace and owner reference, the apply
      loop and the discovery of the kinds to watch.

    Go slices are lists, [map[string]any] is a [gmap string any], an
    [(x, error)] result is a [result], and the cluster the client talks
    to is a state threaded through the calls.  Packages the two files
    import but do not define (Helm, the YAML decoder, the runtime scheme,
    the port translation, the client) are taken as parameters.

    The definitions come first, package by package; the lemmas and the
    theorems follow. *)

From Stdlib Require Import ZArith Ascii.
From stdpp Require Import base strings list gmap.

Set Warnings "-register-all".
#[local] Open Scope Z_scope.

(* ===================================================================== *)
(** * Part I: definitions *)
(* ===================================================================== *)

(** ** Package [registry] ([plugin_registry.go]) *)

Section plugin_registry.

(** [plugins.Plugin] is the empty interface; [plugins.RoutePlugin] and
    [plugins.PostTranslationPlugin] are the two capability interfaces.  A
    type assertion [plugin.(plugins.RoutePlugin)] looks at the method set
    of the plugin's dynamic type and, when it succeeds, yields the same
    value seen through the narrower interface.  The two assertions are
    therefore two predicates on plugins, and both collections hold
    plugins. *)
Context {Plugin : Type}.
Variable implementsRoutePlugin : Plugin → bool.
Variable implementsPostTranslationPlugin : Plugin → bool.

Record PluginRegistry : Type := mkPluginRegistry {
  routePlugins : list Plugin;
  postTranslationPlugins : list Plugin
}.

Definition GetRoutePlugins (p : PluginRegistry) : list Plugin :=
  routePlugins p.

Definition GetPostTranslationPlugins (p : PluginRegistry) : list Plugin :=
  postTranslationPlugins p.

(** The body of the [for _, plugin := range allPlugins] loop: the two [if]
    statements run one after the other on the same plugin. *)
Definition classify (acc : list Plugin * list Plugin) (plugin : Plugin)
  : list Plugin * list Plugin :=
  let routePlugins := acc.1 in
  let postTranslationPlugins := acc.2 in
  let routePlugins :=
    if implementsRoutePlugin plugin
    then routePlugins ++ [plugin] else routePlugins in
  let postTranslationPlugins :=
    if implementsPostTranslationPlugin plugin
    then postTranslationPlugins ++ [plugin] else postTranslationPlugins in
  (routePlugins, postTranslationPlugins).

Definition NewPluginRegistry (allPlugins : list Plugin) : PluginRegistry :=
  let acc := foldl classify ([], []) allPlugins in
  {| routePlugins := acc.1; postTranslationPlugins := acc.2 |}.

End plugin_registry.

Arguments PluginRegistry : clear implicits.
Arguments mkPluginRegistry {Plugin} _ _.

(** Three plugins for the classification example: [A] implements only the
    route capability, [B] both, [C] neither. *)
Inductive examplePlugin : Type := A | B | C.

Definition exampleRoute (p : examplePlugin) : bool :=
  match p with A | B => true | C => false end.

Definition examplePostTranslation (p : examplePlugin) : bool :=
  match p with B => true | A | C => false end.

(** ** Package [deployer] *)

(** *** Values, errors and results *)

(** Go's [any], as far as the Helm values need it: booleans, [int]s, the
    [float64] numbers a JSON round trip produces (whole numbers here, kept
    as integers), strings, slices and string-keyed maps. *)
Inductive any : Type :=
  | ABool (b : bool)
  | AInt (n : Z)
  | AFloat64 (n : Z)
  | AStr (s : string)
  | AList (l : list any)
  | AMap (m : gmap string any).

(** Go's [error]: a message, or an error wrapped by [fmt.Errorf] with the
    [%w] verb behind the formatted text that precedes it. *)
Inductive error : Type :=
  | errors_New (msg : string)
  | fmt_Errorf_w (text : string) (err : error).

(** [err.Error()] *)
Fixpoint Error (e : error) : string :=
  match e with
  | errors_New msg => msg
  | fmt_Errorf_w text err => text +:+ Error err
  end.

(** A Go result pair [(x, err)]: [Ok x] is [(x, nil)], [Err e] is
    [(nil, e)]. *)
Inductive result (X : Type) : Type :=
  | Ok (x : X)
  | Err (e : error).
Arguments Ok {X} x.
Arguments Err {X} e.

(** [if err != nil { return nil, fmt.Errorf(text + "%w", err) }] *)
Definition wrap_err {X : Type} (text : string) (r : result X) : result X :=
  match r with
  | Ok x => Ok x
  | Err e => Err (fmt_Errorf_w text e)
  end.

(** *** The standard library functions the deployer calls *)

(** The conversion [uint16(x)] of a signed integer: its low 16 bits. *)
Definition uint16 (x : Z) : Z := x `mod` 65536.

(** [strings.Split(s, sep)] for a separator of one byte: the substrings
    between the occurrences of [sep], so one more part than there are
    separators, and the one empty part for the empty string. *)
Fixpoint strings_Split (s : string) (sep : ascii) : list string :=
  match s with
  | EmptyString => [EmptyString]
  | String c s' =>
      if decide (c = sep) then EmptyString :: strings_Split s' sep
      else match strings_Split s' sep with
           | [] => [String c EmptyString]
           | part :: parts => String c part :: parts
           end
  end.

(** [strings.Count(s, sep)] for a separator of one byte. *)
Fixpoint strings_Count (s : string) (sep : ascii) : nat :=
  match s with
  | EmptyString => 0%nat
  | String c s' =>
      if decide (c = sep) then S (strings_Count s' sep)
      else strings_Count s' sep
  end.

(** [strings.Join(parts, sep)] for a separator of one byte. *)
Fixpoint strings_Join (parts : list string) (sep : ascii) : string :=
  match parts with
  | [] => EmptyString
  | [part] => part
  | part :: parts' => part +:+ String sep (strings_Join parts' sep)
  end.

Definition colon : ascii := ":"%char.

(** [slices.IndexFunc(s, f)]: the first index whose element satisfies [f],
    or [-1]. *)
Fixpoint slices_IndexFunc {E : Type} (s : list E) (f : E → bool) : Z :=
  match s with
  | [] => -1
  | x :: s' =>
      if f x then 0
      else let i := slices_IndexFunc s' f in
           if decide (i = -1) then -1 else i + 1
  end.

(** [slices.Contains(s, v)]: [Index(s, v) >= 0]. *)
Definition slices_Contains {E : Type} `{EqDecision E} (s : list E) (v : E)
  : bool :=
  bool_decide (0 ≤ slices_IndexFunc s (λ x, bool_decide (v = x))).

(** The elements of a list in the order of their first appearance: each
    element once, at the place where it first stands. *)
Fixpoint firstAppearances {E : Type} `{EqDecision E} (l : list E) : list E :=
  match l with
  | [] => []
  | x :: l => x :: filter (λ y, y ≠ x) (firstAppearances l)
  end.

(** The process environment, and [os.Getenv]: the value of the variable,
    empty when it is not set. *)
Definition os_Getenv (environ : gmap string string) (key : string) : string :=
  default EmptyString (environ !! key).

(** *** Kubernetes data *)

(** [schema.GroupVersionKind] *)
Record GroupVersionKind : Type := mkGVK {
  Group : string;
  Version : string;
  Kind : string
}.

#[global] Instance GroupVersionKind_eq_dec : EqDecision GroupVersionKind.
Proof. solve_decision. Defined.

(** [gvk.String()] *)
Definition GroupVersionKind_String (gvk : GroupVersionKind) : string :=
  Group gvk +:+ "/" +:+ Version gvk +:+ ", Kind=" +:+ Kind gvk.

(** [metav1.OwnerReference]; the two flags are pointers to booleans. *)
Record OwnerReference : Type := mkOwnerReference {
  or_APIVersion : string;
  or_Kind : string;
  or_Name : string;
  or_UID : string;
  or_Controller : option bool;
  or_BlockOwnerDeletion : option bool
}.

(** [api.Listener], with the fields of a listener the deployer can see:
    [Port] is an [api.PortNumber], a 32-bit signed integer. *)
Record Listener : Type := mkListener {
  l_Name : string;
  l_Port : Z;
  l_Protocol : string
}.

(** [api.Gateway]: [Kind] and [APIVersion] come from the embedded
    [TypeMeta], [Name], [Namespace] and [UID] from the embedded
    [ObjectMeta], the listeners from [Spec.Listeners]. *)
Record Gateway : Type := mkGateway {
  gw_Kind : string;
  gw_APIVersion : string;
  gw_Name : string;
  gw_Namespace : string;
  gw_UID : string;
  gw_Listeners : list Listener
}.

(** [unstructured.Unstructured]: the field map a document was
    decoded into ([u_Object] is [obj.Object]), with what the accessors of the object interface
    ([GetObjectKind().GroupVersionKind()], [GetNamespace], [GetName],
    [GetOwnerReferences]) report for it.  A setter changes what the
    matching getter reports and nothing else the deployer reads. *)
Record Unstructured : Type := mkUnstructured {
  u_Object : gmap string any;
  u_GroupVersionKind : GroupVersionKind;
  u_Namespace : string;
  u_Name : string;
  u_OwnerReferences : list OwnerReference
}.

(** An object of a type registered in the scheme (a [Deployment], a
    [Service], ...), seen through the same accessors; [r_fields] stands
    for the rest of the struct. *)
Record RealObject : Type := mkRealObject {
  r_GroupVersionKind : GroupVersionKind;
  r_Namespace : string;
  r_Name : string;
  r_OwnerReferences : list OwnerReference;
  r_fields : gmap string any
}.

(** [client.Object]: the interface value is a pointer either to an object
    of a registered type or to an [Unstructured]. *)
Inductive Object : Type :=
  | Typed (realObj : RealObject)
  | Generic (obj : Unstructured).

Definition GetGroupVersionKind (o : Object) : GroupVersionKind :=
  match o with
  | Typed r => r_GroupVersionKind r
  | Generic u => u_GroupVersionKind u
  end.

Definition GetNamespace (o : Object) : string :=
  match o with
  | Typed r => r_Namespace r
  | Generic u => u_Namespace u
  end.

Definition GetName (o : Object) : string :=
  match o with
  | Typed r => r_Name r
  | Generic u => u_Name u
  end.

Definition GetOwnerReferences (o : Object) : list OwnerReference :=
  match o with
  | Typed r => r_OwnerReferences r
  | Generic u => u_OwnerReferences u
  end.

Definition SetNamespace (namespace : string) (o : Object) : Object :=
  match o with
  | Typed r =>
      Typed (mkRealObject (r_GroupVersionKind r) namespace (r_Name r)
               (r_OwnerReferences r) (r_fields r))
  | Generic u =>
      Generic (mkUnstructured (u_Object u) (u_GroupVersionKind u) namespace
                 (u_Name u) (u_OwnerReferences u))
  end.

Definition SetOwnerReferences (references : list OwnerReference) (o : Object)
  : Object :=
  match o with
  | Typed r =>
      Typed (mkRealObject (r_GroupVersionKind r) (r_Namespace r) (r_Name r)
               references (r_fields r))
  | Generic u =>
      Generic (mkUnstructured (u_Object u) (u_GroupVersionKind u)
                 (u_Namespace u) (u_Name u) references)
  end.

(** What [scheme.New] hands back: a [runtime.Object], which may or may not
    also be a [client.Object] (a list type is not). *)
Inductive runtimeObject : Type :=
  | ClientObject (realObj : RealObject)
  | OtherObject.

(** [runtime.Scheme], as the deployer uses it: its method [New]. *)
Record Scheme : Type := mkScheme {
  scheme_New : GroupVersionKind → result runtimeObject
}.

(** [chart.Chart], as the deployer uses it: what a client-only Helm
    install of the chart renders for a release name, a namespace and a
    tree of values, the manifest text or an error. *)
Record Chart : Type := mkChart {
  chart_Run : string → string → gmap string any → result string
}.

(** *** The deployer *)

Record gatewayPort : Type := mkGatewayPort {
  gp_Port : Z;
  gp_Protocol : string;
  gp_Name : string;
  gp_TargetPort : Z
}.

(** [Inputs]; of [bootstrap.IstioValues] the deployer reads
    [SDSEnabled]. *)
Record Inputs : Type := mkInputs {
  ControllerName : string;
  Dev : bool;
  Port : Z;
  IstioValues_SDSEnabled : bool
}.

Record Deployer : Type := mkDeployer {
  chart : Chart;
  scheme : Scheme;
  inputs : Inputs
}.

(** What the deployer imports from packages outside the two files:
    - [ports.TranslatePort], on 16-bit unsigned integers;
    - the constants [constants.GlooGatewayDeployerImage] (the name of an
      environment variable) and [defaults.GlooSystem] (a namespace);
    - [yaml.NewYAMLOrJSONDecoder] over the manifest: the outcomes of the
      successive calls of [Decode], each a decoded document or an error,
      up to the call that returns [io.EOF];
    - [runtime.DefaultUnstructuredConverter.FromUnstructured], which fills
      an object of a registered type from a field map or fails. *)
Class Imports : Type := mkImports {
  ports_TranslatePort : Z → Z;
  constants_GlooGatewayDeployerImage : string;
  defaults_GlooSystem : string;
  yaml_NewYAMLOrJSONDecoder : string → list (result Unstructured);
  FromUnstructured : gmap string any → RealObject → result RealObject
}.

(** [client.Client], as the deployer uses it: [Patch], which acts on the
    cluster and reports an error or none. *)
Inductive PatchType : Type := client_Apply.

Inductive PatchOption : Type :=
  | client_ForceOwnership
  | client_FieldOwner (name : string).

Record Client (Cluster : Type) : Type := mkClient {
  Patch : Object → PatchType → list PatchOption → Cluster
          → option error * Cluster
}.
Arguments Patch {Cluster} _ _ _ _ _.
Arguments mkClient {Cluster} _.

Section deployer.

Context `{!Imports}.

(** [getDeployerImageValues]: the function reads the process environment,
    which the embedding takes as an argument. *)
Definition defaultImageValues : gmap string any :=
  {[ "tag" := AStr "" ]}.

Definition getDeployerImageValues (environ : gmap string string)
  : gmap string any :=
  let image := os_Getenv environ constants_GlooGatewayDeployerImage in
  if decide (image = "") then
    defaultImageValues
  else
    let imageParts := strings_Split image colon in
    if decide (length imageParts ≠ 2%nat) then
      defaultImageValues
    else
      {[ "repository" := AStr (imageParts !!! 0%nat);
         "tag" := AStr (imageParts !!! 1%nat) ]}.

(** The body of the loop over [gw.Spec.Listeners] in
    [renderChartToObjects]. *)
Definition appendPort (gwPorts : list gatewayPort) (l : Listener)
  : list gatewayPort :=
  let listenerPort := uint16 (l_Port l) in
  if decide (slices_IndexFunc gwPorts
               (λ p, bool_decide (gp_Port p = listenerPort)) ≠ -1)
  then gwPorts
  else
    let port :=
      {| gp_Port := listenerPort;
         gp_TargetPort := ports_TranslatePort listenerPort;
         gp_Name := l_Name l;
         gp_Protocol := "TCP" |} in
    gwPorts ++ [port].

(** [gwPorts] when the loop is over. *)
Definition gwPortsOf (listeners : list Listener) : list gatewayPort :=
  foldl appendPort [] listeners.

(** The port of a listener as the loop reads it, and the entry the loop
    appends for a listener it keeps. *)
Definition listenerPortOf (l : Listener) : Z := uint16 (l_Port l).

Definition portEntry (l : Listener) : gatewayPort :=
  {| gp_Port := listenerPortOf l;
     gp_Protocol := "TCP";
     gp_Name := l_Name l;
     gp_TargetPort := ports_TranslatePort (listenerPortOf l) |}.

(** [jsonConvert]: the ports marshalled to JSON under the names of the
    struct tags and read back as a slice of maps; numbers come back as
    [float64].  Marshalling a slice of this struct does not fail. *)
Definition gatewayPort_json (p : gatewayPort) : any :=
  AMap {[ "port" := AFloat64 (gp_Port p);
          "protocol" := AStr (gp_Protocol p);
          "name" := AStr (gp_Name p);
          "targetPort" := AFloat64 (gp_TargetPort p) ]}.

Definition jsonConvert (gwPorts : list gatewayPort) : result (list any) :=
  Ok (gatewayPort_json <$> gwPorts).

(** The loop of [ConvertYAMLToObjects], on the decoder's remaining
    outcomes and the objects kept so far. *)
Fixpoint decodeLoop (scheme : Scheme) (decoder : list (result Unstructured))
    (objs : list Object) : result (list Object) :=
  match decoder with
  | [] => Ok objs
  | Err err :: _ => Err err
  | Ok obj :: decoder =>
      let gvk := u_GroupVersionKind obj in
      match scheme_New scheme gvk with
      | Ok (ClientObject realObj) =>
          match FromUnstructured (u_Object obj) realObj with
          | Ok realObj => decodeLoop scheme decoder (objs ++ [Typed realObj])
          | Err _ => decodeLoop scheme decoder (objs ++ [Generic obj])
          end
      | Ok OtherObject => decodeLoop scheme decoder (objs ++ [Generic obj])
      | Err _ =>
          if decide (size (u_Object obj) = 0%nat)
          then decodeLoop scheme decoder objs
          else decodeLoop scheme decoder (objs ++ [Generic obj])
      end
  end.

(** What one turn of the loop appends for a decoded document: nothing or
    one object. *)
Definition decodeDocument (scheme : Scheme) (obj : Unstructured)
  : list Object :=
  match decodeLoop scheme [Ok obj] [] with
  | Ok objs => objs
  | Err _ => []
  end.

(** The typed representation of a document: there is one when the scheme
    creates an object for the document's group, version and kind, the
    object is a [client.Object], and the conversion of the document's
    fields into it succeeds. *)
Definition typedRepresentation (scheme : Scheme) (obj : Unstructured)
  : option RealObject :=
  match scheme_New scheme (u_GroupVersionKind obj) with
  | Ok (ClientObject realObj) =>
      match FromUnstructured (u_Object obj) realObj with
      | Ok realObj => Some realObj
      | Err _ => None
      end
  | Ok OtherObject => None
  | Err _ => None
  end.

(** The typed representation when there is one, the generic one
    otherwise. *)
Definition representation (scheme : Scheme) (obj : Unstructured) : Object :=
  match typedRepresentation scheme obj with
  | Some realObj => Typed realObj
  | None => Generic obj
  end.

Definition ConvertYAMLToObjects (scheme : Scheme) (yamlData : string)
  : result (list Object) :=
  decodeLoop scheme (yaml_NewYAMLOrJSONDecoder yamlData) [].

Definition Render (d : Deployer) (name ns : string) (vals : gmap string any)
  : result (list Object) :=
  match wrap_err "failed to render helm chart: "
          (chart_Run (chart d) name ns vals) with
  | Err err => Err err
  | Ok manifest =>
      wrap_err "failed to convert yaml to objects: "
        (ConvertYAMLToObjects (scheme d) manifest)
  end.

(** The values [renderChartToObjects] hands to the render. *)
Definition chartValues (d : Deployer) (environ : gmap string string)
    (gw : Gateway) (portsAny : list any) : gmap string any :=
  let vals : gmap string any :=
    {[ "controlPlane" := AMap {[ "enabled" := ABool false ]};
       "gateway" := AMap
         {[ "enabled" := ABool true;
            "name" := AStr (gw_Name gw);
            "gatewayName" := AStr (gw_Name gw);
            "ports" := AList portsAny;
            "service" := AMap {[ "type" := AStr "LoadBalancer" ]};
            "istioSDS" := AMap
              {[ "enabled" := ABool (IstioValues_SDSEnabled (inputs d)) ]};
            "xds" := AMap
              {[ "host" := AStr ("gloo." +:+ defaults_GlooSystem +:+ ".svc."
                                 +:+ "cluster.local");
                 "port" := AInt (Port (inputs d)) ]};
            "image" := AMap (getDeployerImageValues environ) ]} ]} in
  if Dev (inputs d) then <[ "develop" := ABool true ]> vals else vals.

(** Every object the decoder returns is a pointer of its own, so the loop
    [for _, obj := range objs { obj.SetNamespace(gw.Namespace) }] is a map
    over the slice. *)
Definition renderChartToObjects (d : Deployer) (environ : gmap string string)
    (gw : Gateway) : result (list Object) :=
  let gwPorts := gwPortsOf (gw_Listeners gw) in
  match jsonConvert gwPorts with
  | Err err => Err err
  | Ok portsAny =>
      let vals := chartValues d environ gw portsAny in
      match Render d (gw_Name gw) (gw_Namespace gw) vals with
      | Err err => Err err
      | Ok objs => Ok (SetNamespace (gw_Namespace gw) <$> objs)
      end
  end.

Definition fakeGw : Gateway :=
  {| gw_Kind := ""; gw_APIVersion := "";
     gw_Name := "default"; gw_Namespace := "default";
     gw_UID := ""; gw_Listeners := [] |}.

(** The body of the loop over [objs] in [GetGvksToWatch]. *)
Definition appendGvk (ret : list GroupVersionKind) (obj : Object)
  : list GroupVersionKind :=
  let gvk := GetGroupVersionKind obj in
  if negb (slices_Contains ret gvk) then ret ++ [gvk] else ret.

Definition GetGvksToWatch (d : Deployer) (environ : gmap string string)
  : result (list GroupVersionKind) :=
  match renderChartToObjects d environ fakeGw with
  | Err err => Err err
  | Ok objs => Ok (foldl appendGvk [] objs)
  end.

(** The owner reference [GetObjsToDeploy] builds from the gateway. *)
Definition ownerReferenceOf (gw : Gateway) : OwnerReference :=
  {| or_Kind := gw_Kind gw;
     or_APIVersion := gw_APIVersion gw;
     or_Controller := Some true;
     or_UID := gw_UID gw;
     or_Name := gw_Name gw;
     or_BlockOwnerDeletion := None |}.

(** [GetObjsToDeploy]; the line it prints for each object is left out. *)
Definition GetObjsToDeploy (d : Deployer) (environ : gmap string string)
    (gw : Gateway) : result (list Object) :=
  match wrap_err "failed to get objects to deploy: "
          (renderChartToObjects d environ gw) with
  | Err err => Err err
  | Ok objs => Ok (SetOwnerReferences [ownerReferenceOf gw] <$> objs)
  end.

(** [DeployObjs], with the cluster threaded through the patches. *)
Fixpoint DeployObjs {Cluster : Type} (d : Deployer) (objs : list Object)
    (cli : Client Cluster) (cluster : Cluster) : option error * Cluster :=
  match objs with
  | [] => (None, cluster)
  | obj :: objs =>
      match Patch cli obj client_Apply
              [client_ForceOwnership;
               client_FieldOwner (ControllerName (inputs d))] cluster with
      | (Some err, cluster) =>
          (Some (fmt_Errorf_w
                   ("failed to apply object "
                    +:+ GroupVersionKind_String (GetGroupVersionKind obj)
                    +:+ " " +:+ GetName obj +:+ ": ") err),
           cluster)
      | (None, cluster) => DeployObjs d objs cli cluster
      end
  end.

Definition Deploy {Cluster : Type} (d : Deployer)
    (environ : gmap string string) (gw : Gateway) (cli : Client Cluster)
    (cluster : Cluster) : option error * Cluster :=
  match GetObjsToDeploy d environ gw with
  | Err err => (Some err, cluster)
  | Ok objs => DeployObjs d objs cli cluster
  end.

End deployer.

(** The [gateway.image] block of the chart's [values.yaml]: what the
    templates see for a key the values of a render leave out. *)
Definition chartImageDefaults : gmap string any :=
  {[ "repository" := AStr "quay.io/solo-io/gloo-envoy-wrapper";
     "pullPolicy" := AStr "IfNotPresent";
     "tag" := AStr "" ]}.

(** Helm lays the values of a render over the chart's defaults: in a
    block of scalar entries a key passed wins and a key left out keeps
    its default. *)
Definition coalesceValues (vals defaults : gmap string any)
  : gmap string any :=
  vals ∪ defaults.

(** *** A small world to run the deployer in

    A chart that renders one fixed manifest, a decoder that reads four
    documents out of it (a service, an empty document, a custom resource
    and a second service) and fails on any other text after one document,
    a scheme that knows services and service lists, a converter that
    takes name and namespace from the [metadata] of the fields, and a
    client that records the names it is given and refuses the name
    ["broken"]. *)

Definition exampleManifest : string := "service, empty, custom, service".

Definition exampleString (fields : gmap string any) (key1 key2 : string)
  : string :=
  match fields !! key1 with
  | Some (AMap m) =>
      match m !! key2 with
      | Some (AStr s) => s
      | _ => ""
      end
  | _ => ""
  end.

Definition exampleFields (apiVersion kind name namespace : string)
  : gmap string any :=
  {[ "apiVersion" := AStr apiVersion;
     "kind" := AStr kind;
     "metadata" := AMap {[ "name" := AStr name;
                            "namespace" := AStr namespace ]} ]}.

Definition serviceGVK : GroupVersionKind := mkGVK "" "v1" "Service".

Definition customGVK : GroupVersionKind := mkGVK "example.io" "v1" "Custom".

Definition exampleOwner : OwnerReference :=
  mkOwnerReference "v1" "ConfigMap" "template-owner" "uid-0" None None.

Definition serviceDoc : Unstructured :=
  mkUnstructured (exampleFields "v1" "Service" "gw" "from-template")
    serviceGVK "from-template" "gw" [].

Definition emptyDoc : Unstructured :=
  mkUnstructured ∅ (mkGVK "" "" "") "" "" [].

Definition customDoc : Unstructured :=
  mkUnstructured (exampleFields "example.io/v1" "Custom" "broken" "")
    customGVK "" "broken" [exampleOwner].

Definition metricsDoc : Unstructured :=
  mkUnstructured (exampleFields "v1" "Service" "gw-metrics" "")
    serviceGVK "" "gw-metrics" [].

Definition exampleDocs : list Unstructured :=
  [serviceDoc; emptyDoc; customDoc; metricsDoc].

Definition exampleImports : Imports :=
  {| ports_TranslatePort := λ port, if decide (port < 1024) then port + 8000
                                    else port;
     constants_GlooGatewayDeployerImage := "DEPLOYER_IMAGE";
     defaults_GlooSystem := "gloo-system";
     yaml_NewYAMLOrJSONDecoder := λ yamlData,
       if decide (yamlData = exampleManifest) then Ok <$> exampleDocs
       else [Ok serviceDoc; Err (errors_New "yaml: did not find expected key");
             Ok customDoc];
     FromUnstructured := λ fields realObj,
       Ok (mkRealObject (r_GroupVersionKind realObj)
             (exampleString fields "metadata" "namespace")
             (exampleString fields "metadata" "name") [] fields) |}.

Definition exampleScheme : Scheme :=
  {| scheme_New := λ gvk,
       if decide (gvk = serviceGVK)
       then Ok (ClientObject (mkRealObject gvk "" "" [] ∅))
       else if decide (gvk = mkGVK "" "v1" "ServiceList") then Ok OtherObject
       else Err (errors_New "no kind is registered for the type") |}.

Definition exampleChart : Chart :=
  {| chart_Run := λ name ns vals, Ok exampleManifest |}.

Definition exampleDeployer : Deployer :=
  {| chart := exampleChart;
     scheme := exampleScheme;
     inputs := mkInputs "gloo-gateway" false 9977 false |}.

Definition exampleListeners : list Listener :=
  [mkListener "a" 80 "HTTP"; mkListener "b" 80 "HTTP";
   mkListener "c" 443 "HTTPS"].

Definition exampleGateway : Gateway :=
  mkGateway "Gateway" "gateway.networking.k8s.io/v1" "gw" "ns1" "uid-1"
    exampleListeners.

(** The cluster of the example is the list of the names applied. *)
Definition exampleClient : Client (list string) :=
  mkClient (λ obj patch opts cluster,
    if decide (GetName obj = "broken")
    then (Some (errors_New "admission webhook denied the request"), cluster)
    else (None, cluster ++ [GetName obj])).

(** *** Notions used to state further properties *)

(** [errors.Unwrap(err)]: the error wrapped by [%w], when there is one. *)
Definition errors_Unwrap (e : error) : option error :=
  match e with
  | errors_New _ => None
  | fmt_Errorf_w _ err => Some err
  end.

(** The error reached by unwrapping until nothing is wrapped. *)
Fixpoint rootCause (e : error) : error :=
  match e with
  | errors_New _ => e
  | fmt_Errorf_w _ err => rootCause err
  end.

(** Whether the interface value holds an object of a registered type. *)
Definition isTyped (o : Object) : bool :=
  match o with
  | Typed _ => true
  | Generic _ => false
  end.

(** The fields an object carries besides what the accessors report. *)
Definition objectFields (o : Object) : gmap string any :=
  match o with
  | Typed r => r_fields r
  | Generic u => u_Object u
  end.

(** The first error among the outcomes of a decoder, and the documents
    decoded before it (all of them when there is no error). *)
Fixpoint firstDecodeError (decoder : list (result Unstructured))
  : option error :=
  match decoder with
  | [] => None
  | Err err :: _ => Some err
  | Ok _ :: decoder => firstDecodeError decoder
  end.

Fixpoint decodedBeforeError (decoder : list (result Unstructured))
  : list Unstructured :=
  match decoder with
  | [] => []
  | Err _ :: _ => []
  | Ok obj :: decoder => obj :: decodedBeforeError decoder
  end.

(** Whether the scheme creates an object for a group, version and kind. *)
Definition schemeKnows (scheme : Scheme) (gvk : GroupVersionKind) : bool :=
  match scheme_New scheme gvk with
  | Ok _ => true
  | Err _ => false
  end.

(** The documents the decoder keeps: those with fields, and those whose
    kind the scheme knows. *)
Definition keepsDocument (scheme : Scheme) (obj : Unstructured) : bool :=
  negb (bool_decide (size (u_Object obj) = 0%nat))
  || schemeKnows scheme (u_GroupVersionKind obj).

(** A scheme in which no type is registered. *)
Definition emptyScheme : Scheme :=
  {| scheme_New := λ gvk, Err (errors_New "no kind is registered") |}.


(** The two stamps [GetObjsToDeploy] puts on a rendered object. *)
Definition stamp (gw : Gateway) (obj : Object) : Object :=
  SetOwnerReferences [ownerReferenceOf gw]
    (SetNamespace (gw_Namespace gw) obj).

(** *** Loading the chart ([loadFs]) *)

(** An [fs.FS], as a finite tree: a file with what [fs.ReadFile] gives
    for it, its contents or an error; a directory with what [fs.ReadDir]
    gives for it, its entries sorted by name or an error.  A directory
    entry is the name with the node it stands for; the walk and its
    callback see the file system through the node they are at. *)
Inductive fsNode : Type :=
  | fsFile (data : result string)
  | fsDir (entries : result (list (string * fsNode))).

(** [d.IsDir()] *)
Definition IsDir (d : fsNode) : bool :=
  match d with
  | fsDir _ => true
  | fsFile _ => false
  end.

(** [fs.ReadFile] and [fs.ReadDir] at the node of a path. *)
Definition fs_ReadFile (d : fsNode) : result string :=
  match d with
  | fsFile data => data
  | fsDir _ => Err (errors_New "read: is a directory")
  end.

Definition fs_ReadDir (d : fsNode) : result (list (string * fsNode)) :=
  match d with
  | fsDir entries => entries
  | fsFile _ => Err (errors_New "readdir: not a directory")
  end.

Definition slash : ascii := "/"%char.

(** [path.Join(name, elem)] for a clean, non-empty [name] and a valid
    element. *)
Definition path_Join (name elem : string) : string :=
  name +:+ String slash elem.

(** [fs.WalkDir] with a callback that acts on a state: the callback is
    called on the node; a directory is then read and its entries are
    walked in order; a failure to read it is handed to the callback; the
    first error returned by the callback ends the walk.  (The callbacks
    here return no [fs.SkipDir] or [fs.SkipAll].) *)
Fixpoint fs_WalkDir {S : Type}
    (fn : string → fsNode → option error → S → option error * S)
    (name : string) (d : fsNode) (s : S) {struct d} : option error * S :=
  match fn name d None s with
  | (Some err, s) => (Some err, s)
  | (None, s) =>
      match d with
      | fsFile _ => (None, s)
      | fsDir (Err err) => fn name d (Some err) s
      | fsDir (Ok dirs) =>
          (fix walkEntries (dirs : list (string * fsNode)) (s : S)
             : option error * S :=
             match dirs with
             | [] => (None, s)
             | (name1, d1) :: dirs =>
                 match fs_WalkDir fn (path_Join name name1) d1 s with
                 | (Some err, s) => (Some err, s)
                 | (None, s) => walkEntries dirs s
                 end
             end) dirs s
      end
  end.

(** The elements of a clean relative path; the empty path and ["."] have
    none. *)
Definition pathElements (path : string) : list string :=
  if decide (path = "" ∨ path = ".") then [] else strings_Split path slash.

Fixpoint stripCommonPrefix (base targ : list string)
  : list string * list string :=
  match base, targ with
  | b :: base', t :: targ' =>
      if decide (b = t) then stripCommonPrefix base' targ' else (base, targ)
  | _, _ => (base, targ)
  end.

(** [filepath.Rel(basepath, targpath)] for clean relative paths without
    [..] elements, which are the paths of an [fs.FS]: the common leading
    elements are dropped, [..] stands for each element left of the base,
    and the result is ["."] when nothing is left. *)
Definition filepath_Rel (basepath targpath : string) : result string :=
  let '(base, targ) :=
    stripCommonPrefix (pathElements basepath) (pathElements targpath) in
  let parts := ((λ _, "..") <$> base) ++ targ in
  match parts with
  | [] => Ok "."
  | _ => Ok (strings_Join parts slash)
  end.

(** [loader.BufferedFile] *)
Record BufferedFile : Type := mkBufferedFile {
  bf_Name : string;
  bf_Data : string
}.

Section loadFs.

(** [loader.LoadFiles], and the text [%v] prints for the entries of a
    directory. *)
Variable loader_LoadFiles : list BufferedFile → result Chart.
Variable fmt_entries : list (string * fsNode) → string.

(** The callback [loadFs] hands to [fs.WalkDir], acting on
    [bufferedFiles]. *)
Definition loadFs_visit (root : string) (path : string) (d : fsNode)
    (err : option error) (bufferedFiles : list BufferedFile)
  : option error * list BufferedFile :=
  match err with
  | Some err => (Some err, bufferedFiles)
  | None =>
      if IsDir d then (None, bufferedFiles)
      else
        match fs_ReadFile d with
        | Err readErr => (Some readErr, bufferedFiles)
        | Ok data =>
            match filepath_Rel root path with
            | Err relErr => (Some relErr, bufferedFiles)
            | Ok relativePath =>
                let bufferedFile :=
                  {| bf_Name := relativePath; bf_Data := data |} in
                (None, bufferedFiles ++ [bufferedFile])
            end
        end
  end.

(** [loadFs]; the file system is given by what [fs.ReadDir] returns for
    ["."], and the test [len(entries) != 1] is the match on the shape of
    the entries. *)
Definition loadFs (filesystem : result (list (string * fsNode)))
  : result Chart :=
  match filesystem with
  | Err err => Err err
  | Ok entries =>
      match entries with
      | [(root, d)] =>
          match fs_WalkDir (loadFs_visit root) root d [] with
          | (Some err, _) => Err err
          | (None, bufferedFiles) => loader_LoadFiles bufferedFiles
          end
      | _ =>
          Err (errors_New
                 ("expected exactly one entry in the chart folder, got "
                  +:+ fmt_entries entries))
      end
  end.

End loadFs.

(** The files at and below a node, in the order of the walk, each under
    the path it has when the node has the path [path]. *)
Fixpoint filesBelow (path : string) (d : fsNode) {struct d}
  : list BufferedFile :=
  match d with
  | fsFile (Ok data) => [ {| bf_Name := path; bf_Data := data |} ]
  | fsFile (Err _) => []
  | fsDir (Err _) => []
  | fsDir (Ok dirs) =>
      (fix below (dirs : list (string * fsNode)) : list BufferedFile :=
         match dirs with
         | [] => []
         | (name1, d1) :: dirs =>
             filesBelow (path_Join path name1) d1 ++ below dirs
         end) dirs
  end.

(** The files of a chart whose top-level entry is the node [d]: the
    files below a directory under their paths from it, a single file
    under the name ["."]. *)
Definition chartFiles (d : fsNode) : list BufferedFile :=
  match d with
  | fsFile (Ok data) => [ {| bf_Name := "."; bf_Data := data |} ]
  | fsFile (Err _) => []
  | fsDir (Err _) => []
  | fsDir (Ok dirs) => dirs ≫= λ entry, filesBelow entry.1 entry.2
  end.

(** The first error the walk meets: the error of the first file that
    cannot be read or directory that cannot be listed. *)
Fixpoint firstReadError (d : fsNode) {struct d} : option error :=
  match d with
  | fsFile (Ok _) => None
  | fsFile (Err err) => Some err
  | fsDir (Err err) => Some err
  | fsDir (Ok dirs) =>
      (fix first (dirs : list (string * fsNode)) : option error :=
         match dirs with
         | [] => None
         | (_, d1) :: dirs =>
             match firstReadError d1 with
             | Some err => Some err
             | None => first dirs
             end
         end) dirs
  end.

(** A name [fs.ReadDir] can report: not empty, not ["."], without a
    slash. *)
Definition validName (name : string) : Prop :=
  name ≠ "" ∧ name ≠ "." ∧ strings_Count name slash = 0%nat.

(** The walk of the entries of a directory, and the first error among
    them: the loops inside [fs_WalkDir] and [firstReadError]. *)
Fixpoint walkEntries {S : Type}
    (fn : string → fsNode → option error → S → option error * S)
    (name : string) (dirs : list (string * fsNode)) (s : S)
  : option error * S :=
  match dirs with
  | [] => (None, s)
  | (name1, d1) :: dirs =>
      match fs_WalkDir fn (path_Join name name1) d1 s with
      | (Some err, s) => (Some err, s)
      | (None, s) => walkEntries fn name dirs s
      end
  end.

Fixpoint firstEntryError (dirs : list (string * fsNode)) : option error :=
  match dirs with
  | [] => None
  | (_, d1) :: dirs =>
      match firstReadError d1 with
      | Some err => Some err
      | None => firstEntryError dirs
      end
  end.

(** *** More of the small world

    A deployer whose chart does not render, one whose chart renders a
    text the decoder fails on, and a chart folder with a loader that
    wants at least one file. *)

Definition failingDeployer : Deployer :=
  {| chart := {| chart_Run := λ name ns vals,
                   Err (errors_New "template: execution error") |};
     scheme := exampleScheme;
     inputs := mkInputs "gloo-gateway" false 9977 false |}.

Definition brokenManifestDeployer : Deployer :=
  {| chart := {| chart_Run := λ name ns vals, Ok "not a manifest" |};
     scheme := exampleScheme;
     inputs := mkInputs "gloo-gateway" false 9977 false |}.

Definition exampleChartFolder : fsNode :=
  fsDir (Ok [("Chart.yaml", fsFile (Ok "name: gloo-gateway"));
             ("crds", fsDir (Ok []));
             ("templates",
              fsDir (Ok [("deployment.yaml", fsFile (Ok "kind: Deployment"));
                         ("service.yaml", fsFile (Ok "kind: Service"))]));
             ("values.yaml", fsFile (Ok "develop: false"))]).

Definition unreadableChartFolder : fsNode :=
  fsDir (Ok [("Chart.yaml", fsFile (Ok "name: gloo-gateway"));
             ("templates",
              fsDir (Ok [("deployment.yaml",
                          fsFile (Err (errors_New "read: input/output error")));
                         ("service.yaml", fsFile (Ok "kind: Service"))]))]).

Definition exampleLoader (files : list BufferedFile) : result Chart :=
  match files with
  | [] => Err (errors_New "Chart.yaml file is missing")
  | _ => Ok exampleChart
  end.

Definition exampleFmt (entries : list (string * fsNode)) : string :=
  strings_Join (entries.*1) " "%char.

(* ===================================================================== *)
(** * Part II: lemmas and theorems *)
(* ===================================================================== *)

(** ** The plugin registry *)

Section plugin_registry_facts.

Context {Plugin : Type}.
Variable route post : Plugin → bool.

(** The loop only ever appends: started from any pair of slices it adds
    the selected plugins behind them, in the order of the input. *)
Lemma foldl_classify (allPlugins rs ps : list Plugin) :
  foldl (classify route post) (rs, ps) allPlugins
  = (rs ++ List.filter route allPlugins, ps ++ List.filter post allPlugins).
Proof.
  revert rs ps.
  induction allPlugins as [|plugin rest IH]; intros rs ps; simpl.
  - by rewrite !app_nil_r.
  - unfold classify at 2; simpl.
    rewrite IH.
    destruct (route plugin), (post plugin); by rewrite <- ?app_assoc.
Qed.

Lemma NewPluginRegistry_filter (allPlugins : list Plugin) :
  NewPluginRegistry route post allPlugins
  = mkPluginRegistry (List.filter route allPlugins)
                     (List.filter post allPlugins).
Proof.
  unfold NewPluginRegistry. by rewrite foldl_classify.
Qed.

Lemma elem_of_List_filter (f : Plugin → bool) (l : list Plugin) (p : Plugin) :
  p ∈ List.filter f l ↔ p ∈ l ∧ f p = true.
Proof.
  rewrite !list_elem_of_In. apply filter_In.
Qed.

Lemma List_filter_sublist (f : Plugin → bool) (l : list Plugin) :
  List.filter f l `sublist_of` l.
Proof.
  induction l as [|x l IH]; simpl; [constructor|].
  destruct (f x); by constructor.
Qed.

End plugin_registry_facts.

(** C5.  For every ordered list of plugins, [NewPluginRegistry] returns a
    registry (it has no error result) whose two accessors give the
    plugins passing the route assertion, respectively the
    post-translation assertion, each in registration order: the
    collections are the two order-preserving selections of the input, a
    plugin is in a collection exactly when it is in the input and has the
    capability (so one with both is in both and one with neither is in
    neither), and the empty input gives two empty collections.  For
    [A] (route only), [B] (both), [C] (neither) the route plugins are
    [A; B] and the post-translation plugins are [B]. *)
Theorem C5_NewPluginRegistry_classifies :
  (∀ (Plugin : Type) (route post : Plugin → bool) (allPlugins : list Plugin),
     let r := NewPluginRegistry route post allPlugins in
     GetRoutePlugins r = List.filter route allPlugins
     ∧ GetPostTranslationPlugins r = List.filter post allPlugins
     ∧ GetRoutePlugins r `sublist_of` allPlugins
     ∧ GetPostTranslationPlugins r `sublist_of` allPlugins
     ∧ (∀ p, p ∈ GetRoutePlugins r ↔ p ∈ allPlugins ∧ route p = true)
     ∧ (∀ p, p ∈ GetPostTranslationPlugins r
             ↔ p ∈ allPlugins ∧ post p = true))
  ∧ (∀ (Plugin : Type) (route post : Plugin → bool),
       NewPluginRegistry route post [] = mkPluginRegistry [] [])
  ∧ NewPluginRegistry exampleRoute examplePostTranslation [A; B; C]
    = mkPluginRegistry [A; B] [B].
Proof.
  split; [|split].
  - intros Plugin route post allPlugins r. subst r.
    rewrite NewPluginRegistry_filter.
    unfold GetRoutePlugins, GetPostTranslationPlugins; simpl.
    split_and!; auto using List_filter_sublist, elem_of_List_filter.
  - intros Plugin route post. by rewrite NewPluginRegistry_filter.
  - by rewrite NewPluginRegistry_filter.
Qed.

(** ** Strings *)

Lemma string_append_assoc (s1 s2 s3 : string) :
  (s1 +:+ s2) +:+ s3 = s1 +:+ (s2 +:+ s3).
Proof.
  induction s1 as [|c s1 IH]; [done|].
  change (String c ((s1 +:+ s2) +:+ s3) = String c (s1 +:+ (s2 +:+ s3))).
  by rewrite IH.
Qed.

Lemma strings_Split_length (s : string) (sep : ascii) :
  length (strings_Split s sep) = S (strings_Count s sep).
Proof.
  induction s as [|c s IH]; simpl; [done|].
  destruct (decide (c = sep)); simpl; [by rewrite IH|].
  destruct (strings_Split s sep) as [|part parts]; simpl in *; lia.
Qed.

(** The parts hold no separator, and joined by it they give the string
    back: the two facts say where the string was cut. *)
Lemma strings_Split_parts (s : string) (sep : ascii) :
  Forall (λ part, strings_Count part sep = 0%nat) (strings_Split s sep).
Proof.
  induction s as [|c s IH]; simpl.
  - by repeat constructor.
  - destruct (decide (c = sep)) as [->|Hne].
    + by constructor.
    + destruct (strings_Split s sep) as [|part parts]; simpl.
      * repeat constructor. simpl. by rewrite decide_False.
      * inversion_clear IH as [|? ? Hpart Hparts].
        constructor; [|done]. simpl. by rewrite decide_False.
Qed.

Lemma strings_Join_Split (s : string) (sep : ascii) :
  strings_Join (strings_Split s sep) sep = s.
Proof.
  induction s as [|c s IH]; simpl; [done|].
  pose proof (strings_Split_length s sep) as Hlen.
  destruct (decide (c = sep)) as [->|Hne].
  - destruct (strings_Split s sep) as [|part parts]; simpl in *; [lia|].
    by rewrite <- IH.
  - destruct (strings_Split s sep) as [|part parts]; simpl in *; [lia|].
    destruct parts as [|part' parts']; simpl in *; by rewrite <- IH.
Qed.

(** Two parts: the string is the first part, the separator and the second
    part, and neither part holds a separator. *)
Lemma strings_Split_two (s : string) (sep : ascii) (p q : string) :
  strings_Split s sep = [p; q] →
  s = p +:+ String sep q
  ∧ strings_Count p sep = 0%nat ∧ strings_Count q sep = 0%nat.
Proof.
  intros H.
  pose proof (strings_Join_Split s sep) as HJ.
  pose proof (strings_Split_parts s sep) as HP.
  rewrite H in HJ, HP. simpl in HJ.
  inversion_clear HP as [|? ? Hp HP']. inversion_clear HP' as [|? ? Hq _].
  done.
Qed.

(** ** The image override *)

Section image_facts.

Context `{!Imports}.

Lemma getDeployerImageValues_empty (environ : gmap string string) :
  os_Getenv environ constants_GlooGatewayDeployerImage = "" →
  getDeployerImageValues environ = defaultImageValues.
Proof.
  intros Himage. unfold getDeployerImageValues. rewrite Himage.
  by rewrite decide_True.
Qed.

Lemma getDeployerImageValues_other (environ : gmap string string) :
  length (strings_Split
            (os_Getenv environ constants_GlooGatewayDeployerImage) colon)
    ≠ 2%nat →
  getDeployerImageValues environ = defaultImageValues.
Proof.
  intros Hparts. unfold getDeployerImageValues.
  destruct (decide (_ = "")); [done|]. by rewrite decide_True.
Qed.

Lemma getDeployerImageValues_two (environ : gmap string string)
    (repository tag : string) :
  strings_Split (os_Getenv environ constants_GlooGatewayDeployerImage) colon
    = [repository; tag] →
  getDeployerImageValues environ
  = {[ "repository" := AStr repository; "tag" := AStr tag ]}.
Proof.
  intros Hparts. unfold getDeployerImageValues.
  destruct (decide (_ = "")) as [Hempty|_].
  - rewrite Hempty in Hparts. discriminate.
  - rewrite Hparts. by rewrite decide_False by (simpl; lia).
Qed.

Lemma os_Getenv_singleton (key value : string) :
  os_Getenv {[ key := value ]} key = value.
Proof.
  unfold os_Getenv. by rewrite lookup_singleton_eq.
Qed.

Lemma os_Getenv_unset (key : string) : os_Getenv ∅ key = "".
Proof.
  unfold os_Getenv. by rewrite lookup_empty.
Qed.

(** C6.  [getDeployerImageValues] returns a map and no error.  With
    [image] the value of the override variable in the environment: when
    [image] is empty (the variable unset, or set to nothing) the result
    is the default map; when [image] splits on [':'] into exactly two
    parts the result is [{repository: first part, tag: second part}],
    and then [image] is the first part, a colon and the second part with
    no further colon; when the number of parts, which is one more than
    the number of colons, is not two (no colon, or more than one) the
    result is the default map.  Laid over the chart's own image values
    the default map leaves them as they are.  ["myrepo:v2"] gives
    [{repository: "myrepo", tag: "v2"}]; ["myrepo"], ["a:b:c"], [""] and
    an unset variable give the default map. *)
Theorem C6_getDeployerImageValues_override (environ : gmap string string) :
  let image := os_Getenv environ constants_GlooGatewayDeployerImage in
  let var := constants_GlooGatewayDeployerImage in
  (image = "" → getDeployerImageValues environ = defaultImageValues)
  ∧ (∀ repository tag,
       strings_Split image colon = [repository; tag] →
       getDeployerImageValues environ
       = {[ "repository" := AStr repository; "tag" := AStr tag ]}
       ∧ image = repository +:+ ":" +:+ tag
       ∧ strings_Count repository colon = 0%nat
       ∧ strings_Count tag colon = 0%nat)
  ∧ length (strings_Split image colon) = S (strings_Count image colon)
  ∧ (strings_Count image colon ≠ 1%nat →
     getDeployerImageValues environ = defaultImageValues)
  ∧ coalesceValues defaultImageValues chartImageDefaults = chartImageDefaults
  ∧ getDeployerImageValues {[ var := "myrepo:v2" ]}
    = {[ "repository" := AStr "myrepo"; "tag" := AStr "v2" ]}
  ∧ getDeployerImageValues {[ var := "myrepo" ]} = defaultImageValues
  ∧ getDeployerImageValues {[ var := "a:b:c" ]} = defaultImageValues
  ∧ getDeployerImageValues {[ var := "" ]} = defaultImageValues
  ∧ getDeployerImageValues ∅ = defaultImageValues.
Proof.
  intros image var. split_and!.
  - apply getDeployerImageValues_empty.
  - intros repository tag Hsplit. split.
    + by apply getDeployerImageValues_two.
    + by apply strings_Split_two in Hsplit.
  - apply strings_Split_length.
  - intros Hcount. apply getDeployerImageValues_other.
    fold image. rewrite strings_Split_length. lia.
  - apply map_eq. intros key. by vm_compute.
  - apply getDeployerImageValues_two. by rewrite os_Getenv_singleton.
  - apply getDeployerImageValues_other. by rewrite os_Getenv_singleton.
  - apply getDeployerImageValues_other. by rewrite os_Getenv_singleton.
  - apply getDeployerImageValues_empty. by rewrite os_Getenv_singleton.
  - apply getDeployerImageValues_empty. by rewrite os_Getenv_unset.
Qed.

(** C10.  In every fallback case of [getDeployerImageValues] (the value of
    the override variable is empty, or does not split into exactly two
    parts on [':']) the map returned is exactly [{"tag": ""}]: its only
    key is ["tag"], it has no ["repository"] entry, and laid over the
    chart's image values it keeps the chart's repository and gives the
    empty tag. *)
Theorem C10_fallback_sets_only_tag (environ : gmap string string) :
  let image := os_Getenv environ constants_GlooGatewayDeployerImage in
  image = "" ∨ length (strings_Split image colon) ≠ 2%nat →
  getDeployerImageValues environ = {[ "tag" := AStr "" ]}
  ∧ getDeployerImageValues environ !! "repository" = None
  ∧ dom (getDeployerImageValues environ) = ({[ "tag" ]} : gset string)
  ∧ coalesceValues (getDeployerImageValues environ) chartImageDefaults
      !! "repository"
    = chartImageDefaults !! "repository"
  ∧ coalesceValues (getDeployerImageValues environ) chartImageDefaults
      !! "tag"
    = Some (AStr "").
Proof.
  intros image Hfallback.
  assert (getDeployerImageValues environ = defaultImageValues) as ->.
  { destruct Hfallback.
    - by apply getDeployerImageValues_empty.
    - by apply getDeployerImageValues_other. }
  unfold defaultImageValues. rewrite dom_singleton_L.
  by split_and!.
Qed.

End image_facts.

(** ** [slices.IndexFunc] and [slices.Contains] *)

Lemma slices_IndexFunc_range {E : Type} (s : list E) (f : E → bool) :
  slices_IndexFunc s f = -1 ∨ 0 ≤ slices_IndexFunc s f.
Proof.
  induction s as [|x s IH]; simpl; [by left|].
  destruct (f x); [right; lia|].
  destruct (decide (slices_IndexFunc s f = -1)); [by left|right; lia].
Qed.

Lemma slices_IndexFunc_found {E : Type} (s : list E) (f : E → bool) :
  slices_IndexFunc s f ≠ -1 ↔ ∃ x, x ∈ s ∧ f x = true.
Proof.
  induction s as [|x s IH]; simpl.
  - split; [done|]. intros (y & Hy & _). by apply elem_of_nil in Hy.
  - destruct (f x) eqn:Hfx.
    + split; [|done]. intros _. exists x. split; [left|done].
    + destruct (slices_IndexFunc_range s f) as [Hnone|Hsome].
      * rewrite decide_True by done. split; [done|].
        intros (y & Hy & Hfy). apply elem_of_cons in Hy as [->|Hy].
        -- congruence.
        -- exfalso. apply IH; [|done]. by exists y.
      * rewrite decide_False by lia. split; [|lia].
        intros _. destruct IH as [IH _].
        destruct IH as (y & Hy & Hfy); [lia|].
        exists y. split; [by right|done].
Qed.

Lemma slices_Contains_elem_of {E : Type} `{EqDecision E} (s : list E) (v : E) :
  slices_Contains s v = true ↔ v ∈ s.
Proof.
  unfold slices_Contains.
  rewrite bool_decide_eq_true.
  destruct (slices_IndexFunc_range s (λ x, bool_decide (v = x))) as [Hn|Hs].
  - split; [lia|]. intros Hv. exfalso.
    apply (slices_IndexFunc_found s (λ x, bool_decide (v = x))); [|done].
    exists v. split; [done|]. by apply bool_decide_eq_true.
  - split; [|done]. intros _.
    destruct (slices_IndexFunc_found s (λ x, bool_decide (v = x))) as [Hf _].
    destruct Hf as (y & Hy & Hvy); [lia|].
    apply bool_decide_eq_true in Hvy. by subst.
Qed.

(** ** Port derivation *)

Section ports_facts.

Context `{!Imports}.

(** One turn of the loop, by whether the port is among those kept. *)
Lemma appendPort_spec (gwPorts : list gatewayPort) (l : Listener) :
  appendPort gwPorts l
  = if decide (listenerPortOf l ∈ gp_Port <$> gwPorts)
    then gwPorts else gwPorts ++ [portEntry l].
Proof.
  unfold appendPort. fold (listenerPortOf l).
  destruct (decide (listenerPortOf l ∈ _)) as [Hin|Hnin].
  - rewrite decide_True; [done|].
    apply slices_IndexFunc_found.
    apply list_elem_of_fmap in Hin as (p & Hp & Hin).
    exists p. split; [done|]. by apply bool_decide_eq_true.
  - rewrite decide_False; [done|].
    intros Hfound. apply Hnin.
    apply slices_IndexFunc_found in Hfound.
    destruct Hfound as (p & Hin & Hp). apply bool_decide_eq_true in Hp.
    apply list_elem_of_fmap. by exists p.
Qed.

Lemma gwPortsOf_snoc (listeners : list Listener) (l : Listener) :
  gwPortsOf (listeners ++ [l])
  = if decide (listenerPortOf l ∈ gp_Port <$> gwPortsOf listeners)
    then gwPortsOf listeners else gwPortsOf listeners ++ [portEntry l].
Proof.
  unfold gwPortsOf. rewrite foldl_snoc. apply appendPort_spec.
Qed.

(** The ports kept are the ports of the listeners. *)
Lemma gwPortsOf_ports (listeners : list Listener) (p : Z) :
  p ∈ gp_Port <$> gwPortsOf listeners ↔ p ∈ listenerPortOf <$> listeners.
Proof.
  induction listeners as [|l listeners IH] using rev_ind; [done|].
  rewrite gwPortsOf_snoc, fmap_app, elem_of_app; simpl.
  rewrite list_elem_of_singleton, <- IH.
  destruct (decide (listenerPortOf l ∈ _)) as [Hin|Hnin].
  - split; [by left|]. intros [Hp| ->]; done.
  - rewrite fmap_app, elem_of_app; simpl. by rewrite list_elem_of_singleton.
Qed.

Lemma gwPortsOf_NoDup (listeners : list Listener) :
  NoDup (gp_Port <$> gwPortsOf listeners).
Proof.
  induction listeners as [|l listeners IH] using rev_ind; [constructor|].
  rewrite gwPortsOf_snoc.
  destruct (decide (listenerPortOf l ∈ _)) as [Hin|Hnin]; [done|].
  rewrite fmap_app. apply NoDup_app. split_and!; [done| |].
  - intros p Hp Hp'. simpl in Hp'.
    apply list_elem_of_singleton in Hp'. by subst.
  - simpl. apply NoDup_singleton.
Qed.

(** Later listeners never remove or reorder what was kept. *)
Lemma gwPortsOf_prefix (listeners more : list Listener) :
  gwPortsOf listeners `prefix_of` gwPortsOf (listeners ++ more).
Proof.
  induction more as [|l more IH] using rev_ind.
  - by rewrite app_nil_r.
  - rewrite app_assoc, gwPortsOf_snoc.
    destruct (decide (listenerPortOf l ∈ _)); [done|].
    by apply prefix_app_r.
Qed.

(** A listener whose port no earlier listener has is kept... *)
Lemma gwPortsOf_first (pre post : list Listener) (l : Listener) :
  listenerPortOf l ∉ listenerPortOf <$> pre →
  portEntry l ∈ gwPortsOf (pre ++ l :: post).
Proof.
  intros Hfresh.
  destruct (gwPortsOf_prefix (pre ++ [l]) post) as [k Hk].
  rewrite <- app_assoc in Hk; simpl in Hk. rewrite Hk.
  apply elem_of_app. left.
  rewrite gwPortsOf_snoc.
  rewrite decide_False by (by rewrite gwPortsOf_ports).
  apply elem_of_app. right. by apply list_elem_of_singleton.
Qed.

(** ... and nothing else is. *)
Lemma gwPortsOf_origin (listeners : list Listener) (e : gatewayPort) :
  e ∈ gwPortsOf listeners →
  ∃ pre l post,
    listeners = pre ++ l :: post
    ∧ (listenerPortOf l ∉ listenerPortOf <$> pre)
    ∧ e = portEntry l.
Proof.
  induction listeners as [|l listeners IH] using rev_ind.
  - intros He. by apply elem_of_nil in He.
  - rewrite gwPortsOf_snoc.
    destruct (decide (listenerPortOf l ∈ _)) as [Hin|Hnin].
    + intros He. destruct (IH He) as (pre & l' & post & -> & Hfresh & ->).
      exists pre, l', (post ++ [l]). by rewrite <- app_assoc.
    + intros He. apply elem_of_app in He as [He|He].
      * destruct (IH He) as (pre & l' & post & -> & Hfresh & ->).
        exists pre, l', (post ++ [l]). by rewrite <- app_assoc.
      * apply list_elem_of_singleton in He as ->.
        exists listeners, l, []. split_and!; [done| |done].
        by rewrite <- gwPortsOf_ports.
Qed.

Lemma gwPortsOf_sublist (listeners : list Listener) :
  gwPortsOf listeners `sublist_of` (portEntry <$> listeners).
Proof.
  induction listeners as [|l listeners IH] using rev_ind; [done|].
  rewrite gwPortsOf_snoc, fmap_app.
  destruct (decide (listenerPortOf l ∈ _)).
  - by apply sublist_inserts_r.
  - by apply sublist_app.
Qed.

Lemma uint16_id (p : Z) : 0 ≤ p < 65536 → uint16 p = p.
Proof.
  intros Hp. unfold uint16. by apply Z.mod_small.
Qed.

Lemma listenerPortOf_valid (listeners : list Listener) :
  Forall (λ l, 0 ≤ l_Port l < 65536) listeners →
  listenerPortOf <$> listeners = l_Port <$> listeners.
Proof.
  induction 1 as [|l listeners Hl _ IH]; [done|].
  rewrite !fmap_cons, IH. unfold listenerPortOf. by rewrite uint16_id.
Qed.

(** C1.  For every list of listeners, the loop of [renderChartToObjects]
    builds the port entries by going through the listeners in order:
    it starts from no entry, and a further listener is skipped when its
    port is the port of an entry already there and otherwise appends
    exactly the entry [{port: its port, name: its name, protocol: "TCP",
    targetPort: TranslatePort(its port)}].  So the entries have pairwise
    different ports, they follow the order of the listeners, a listener
    whose port no earlier listener has gets its entry (the first
    occurrence wins) and every entry is the entry of such a listener.
    The port of a listener is read through [uint16], which leaves every
    port number from 0 to 65535 as it is: when the ports of the listeners
    are port numbers, the entries are exactly the entries [{port: l.Port,
    name: l.Name, protocol: "TCP", targetPort: TranslatePort(l.Port)}] of
    the listeners [l] whose [l.Port] no earlier listener has.  The
    listeners (80, "a"),
    (80, "b"), (443, "c") give two entries, port 80 named "a" and port
    443 named "c", in that order. *)
Theorem C1_gwPorts_first_listener_per_port (listeners : list Listener) :
  gwPortsOf [] = []
  ∧ (∀ l, gwPortsOf (listeners ++ [l])
          = if decide (listenerPortOf l ∈ gp_Port <$> gwPortsOf listeners)
            then gwPortsOf listeners
            else gwPortsOf listeners
                 ++ [ {| gp_Port := listenerPortOf l;
                         gp_Protocol := "TCP";
                         gp_Name := l_Name l;
                         gp_TargetPort :=
                           ports_TranslatePort (listenerPortOf l) |} ])
  ∧ NoDup (gp_Port <$> gwPortsOf listeners)
  ∧ gwPortsOf listeners `sublist_of` (portEntry <$> listeners)
  ∧ (∀ pre l post,
       listeners = pre ++ l :: post →
       listenerPortOf l ∉ listenerPortOf <$> pre →
       portEntry l ∈ gwPortsOf listeners)
  ∧ (∀ e, e ∈ gwPortsOf listeners →
       ∃ pre l post,
         listeners = pre ++ l :: post
         ∧ (listenerPortOf l ∉ listenerPortOf <$> pre)
         ∧ e = portEntry l)
  ∧ (∀ l, 0 ≤ l_Port l < 65536 → listenerPortOf l = l_Port l)
  ∧ (Forall (λ l, 0 ≤ l_Port l < 65536) listeners →
     ∀ e, e ∈ gwPortsOf listeners
          ↔ ∃ pre l post,
              listeners = pre ++ l :: post
              ∧ (l_Port l ∉ l_Port <$> pre)
              ∧ e = {| gp_Port := l_Port l;
                       gp_Protocol := "TCP";
                       gp_Name := l_Name l;
                       gp_TargetPort := ports_TranslatePort (l_Port l) |})
  ∧ gwPortsOf [mkListener "a" 80 "HTTP"; mkListener "b" 80 "HTTP";
               mkListener "c" 443 "HTTPS"]
    = [mkGatewayPort 80 "TCP" "a" (ports_TranslatePort 80);
       mkGatewayPort 443 "TCP" "c" (ports_TranslatePort 443)].
Proof.
  split_and!.
  - done.
  - intros l. apply gwPortsOf_snoc.
  - apply gwPortsOf_NoDup.
  - apply gwPortsOf_sublist.
  - intros pre l post -> Hfresh. by apply gwPortsOf_first.
  - apply gwPortsOf_origin.
  - intros l Hl. by apply uint16_id.
  - intros Hvalid e.
    assert (∀ pre l post,
              listeners = pre ++ l :: post →
              listenerPortOf l = l_Port l
              ∧ listenerPortOf <$> pre = l_Port <$> pre) as Hread.
    { intros pre l post ->.
      apply Forall_app in Hvalid as [Hpre Hrest].
      apply Forall_cons in Hrest as [Hl _].
      split; [by apply uint16_id|by apply listenerPortOf_valid]. }
    split.
    + intros (pre & l & post & Heq & Hfresh & ->)%gwPortsOf_origin.
      destruct (Hread pre l post Heq) as [Hl Hpre].
      exists pre, l, post. unfold portEntry.
      by rewrite <- Hpre, <- Hl.
    + intros (pre & l & post & Heq & Hfresh & ->).
      destruct (Hread pre l post Heq) as [Hl Hpre].
      rewrite <- Hl, <- Hpre in Hfresh. rewrite <- Hl, Heq.
      by apply gwPortsOf_first.
  - done.
Qed.

End ports_facts.

(** ** The manifest decoder *)

Section decoder_facts.

Context `{!Imports}.

(** One turn of the loop on a decoded document: the loop goes on with the
    objects that document adds. *)
Lemma decodeLoop_cons (scheme : Scheme) (obj : Unstructured)
    (decoder : list (result Unstructured)) (objs : list Object) :
  decodeLoop scheme (Ok obj :: decoder) objs
  = decodeLoop scheme decoder (objs ++ decodeDocument scheme obj).
Proof.
  unfold decodeDocument; simpl.
  destruct (scheme_New scheme (u_GroupVersionKind obj)) as [[realObj|]|err].
  - by destruct (FromUnstructured (u_Object obj) realObj).
  - done.
  - destruct (decide (size (u_Object obj) = 0%nat)); [|done].
    by rewrite app_nil_r.
Qed.

(** The documents before the first error or the end only add objects. *)
Lemma decodeLoop_docs (scheme : Scheme) (docs : list Unstructured)
    (decoder : list (result Unstructured)) (objs : list Object) :
  decodeLoop scheme ((Ok <$> docs) ++ decoder) objs
  = decodeLoop scheme decoder (objs ++ (docs ≫= decodeDocument scheme)).
Proof.
  revert objs. induction docs as [|obj docs IH]; intros objs; simpl.
  - by rewrite app_nil_r.
  - change (decodeLoop scheme (Ok obj :: (Ok <$> docs) ++ decoder) objs
            = decodeLoop scheme decoder
                (objs ++ decodeDocument scheme obj
                      ++ (docs ≫= decodeDocument scheme))).
    by rewrite decodeLoop_cons, IH, app_assoc.
Qed.

(** The outcomes of a decoder split into the documents before the first
    error and, when there is one, that error and what follows it. *)
Lemma decoder_split (decoder : list (result Unstructured)) :
  (∃ docs, decoder = Ok <$> docs)
  ∨ (∃ docs err rest, decoder = (Ok <$> docs) ++ Err err :: rest).
Proof.
  induction decoder as [|[obj|err] decoder IH].
  - left. by exists [].
  - destruct IH as [(docs & ->)|(docs & err & rest & ->)].
    + left. by exists (obj :: docs).
    + right. by exists (obj :: docs), err, rest.
  - right. by exists [], err, decoder.
Qed.

Lemma decodeLoop_all (scheme : Scheme) (docs : list Unstructured) :
  decodeLoop scheme (Ok <$> docs) [] = Ok (docs ≫= decodeDocument scheme).
Proof.
  rewrite <- (app_nil_r (Ok <$> docs)). by rewrite decodeLoop_docs.
Qed.

Lemma decodeLoop_error (scheme : Scheme) (docs : list Unstructured)
    (err : error) (rest : list (result Unstructured)) :
  decodeLoop scheme ((Ok <$> docs) ++ Err err :: rest) [] = Err err.
Proof.
  by rewrite decodeLoop_docs.
Qed.

(** A document with fields gives exactly its representation. *)
Lemma decodeDocument_fields (scheme : Scheme) (obj : Unstructured) :
  u_Object obj ≠ ∅ →
  decodeDocument scheme obj = [representation scheme obj].
Proof.
  intros Hfields.
  unfold decodeDocument, representation, typedRepresentation; simpl.
  destruct (scheme_New scheme (u_GroupVersionKind obj)) as [[realObj|]|err].
  - by destruct (FromUnstructured (u_Object obj) realObj).
  - done.
  - rewrite decide_False; [done|].
    intros Hsize. by apply map_size_empty_iff in Hsize.
Qed.

(** A document without fields whose kind the scheme does not know gives
    nothing. *)
Lemma decodeDocument_empty (scheme : Scheme) (obj : Unstructured)
    (err : error) :
  u_Object obj = ∅ →
  scheme_New scheme (u_GroupVersionKind obj) = Err err →
  decodeDocument scheme obj = [].
Proof.
  intros Hempty Hnew. unfold decodeDocument; simpl.
  rewrite Hnew, Hempty. by rewrite decide_True by apply map_size_empty.
Qed.

Lemma bind_representation (scheme : Scheme) (docs : list Unstructured) :
  Forall (λ obj, u_Object obj ≠ ∅) docs →
  docs ≫= decodeDocument scheme = representation scheme <$> docs.
Proof.
  induction 1 as [|obj docs Hobj _ IH]; [done|].
  change ((obj :: docs) ≫= decodeDocument scheme)
    with (decodeDocument scheme obj ++ (docs ≫= decodeDocument scheme)).
  by rewrite decodeDocument_fields, IH.
Qed.

Lemma decodeLoop_drop (scheme : Scheme) (obj : Unstructured)
    (before after : list (result Unstructured)) (objs : list Object) :
  decodeDocument scheme obj = [] →
  decodeLoop scheme (before ++ Ok obj :: after) objs
  = decodeLoop scheme (before ++ after) objs.
Proof.
  intros Hdrop. revert objs.
  induction before as [|[obj'|err] before IH]; intros objs.
  - simpl app. by rewrite decodeLoop_cons, Hdrop, app_nil_r.
  - simpl app. by rewrite !decodeLoop_cons, IH.
  - done.
Qed.

Lemma decodeDocument_length (scheme : Scheme) (obj : Unstructured) :
  (length (decodeDocument scheme obj) ≤ 1)%nat.
Proof.
  unfold decodeDocument; simpl.
  destruct (scheme_New scheme (u_GroupVersionKind obj)) as [[realObj|]|err];
    simpl; [|lia|].
  - destruct (FromUnstructured (u_Object obj) realObj); simpl; lia.
  - destruct (decide (size (u_Object obj) = 0%nat)); simpl; lia.
Qed.

(** C4.  For a manifest whose documents all decode, [ConvertYAMLToObjects]
    returns the objects the documents give, document after document in
    the order of the manifest.  A document with fields gives exactly one
    object, its representation: the typed object when the scheme creates
    an object for the document's group, version and kind, that object is
    a [client.Object] and the conversion of the fields into it succeeds,
    and the generic (unstructured) document otherwise.  In particular a
    document with fields whose kind the scheme does not know is kept, as
    the generic document; a document gives at most one object; and when
    every document has fields the result is the list of the
    representations. *)
Theorem C4_decoder_keeps_every_document (scheme : Scheme) (yamlData : string)
    (docs : list Unstructured) :
  yaml_NewYAMLOrJSONDecoder yamlData = Ok <$> docs →
  ConvertYAMLToObjects scheme yamlData = Ok (docs ≫= decodeDocument scheme)
  ∧ (∀ obj, u_Object obj ≠ ∅ →
       decodeDocument scheme obj = [representation scheme obj])
  ∧ (∀ obj, (length (decodeDocument scheme obj) ≤ 1)%nat)
  ∧ (∀ obj realObj0 realObj,
       scheme_New scheme (u_GroupVersionKind obj) = Ok (ClientObject realObj0) →
       FromUnstructured (u_Object obj) realObj0 = Ok realObj →
       representation scheme obj = Typed realObj)
  ∧ (∀ obj,
       (scheme_New scheme (u_GroupVersionKind obj) = Ok OtherObject
        ∨ (∃ err, scheme_New scheme (u_GroupVersionKind obj) = Err err)
        ∨ (∃ realObj0 err,
             scheme_New scheme (u_GroupVersionKind obj)
               = Ok (ClientObject realObj0)
             ∧ FromUnstructured (u_Object obj) realObj0 = Err err)) →
       representation scheme obj = Generic obj)
  ∧ (∀ obj err,
       u_Object obj ≠ ∅ →
       scheme_New scheme (u_GroupVersionKind obj) = Err err →
       decodeDocument scheme obj = [Generic obj])
  ∧ (Forall (λ obj, u_Object obj ≠ ∅) docs →
     ConvertYAMLToObjects scheme yamlData
     = Ok (representation scheme <$> docs)).
Proof.
  intros Hdecoder.
  assert (ConvertYAMLToObjects scheme yamlData
          = Ok (docs ≫= decodeDocument scheme)) as Hall.
  { unfold ConvertYAMLToObjects. rewrite Hdecoder. apply decodeLoop_all. }
  split_and!.
  - done.
  - apply decodeDocument_fields.
  - apply decodeDocument_length.
  - intros obj realObj0 realObj Hnew Hconv.
    unfold representation, typedRepresentation. by rewrite Hnew, Hconv.
  - intros obj Hnone. unfold representation, typedRepresentation.
    destruct Hnone as [Hnew|[(err & Hnew)|(realObj0 & err & Hnew & Hconv)]];
      rewrite Hnew; [done|done|by rewrite Hconv].
  - intros obj err Hfields Hnew.
    rewrite decodeDocument_fields by done.
    unfold representation, typedRepresentation. by rewrite Hnew.
  - intros Hfields. rewrite Hall. by rewrite bind_representation.
Qed.

(** C8.  [ConvertYAMLToObjects] on a manifest: when a document is
    malformed, that is when a call of [Decode] fails with an error other
    than the end of the input, the result is that error and no object,
    whatever documents were decoded before it; so a list of objects comes
    back only when every document decoded.  A document without fields
    whose group, version and kind the scheme knows no type for (an empty
    document reports the empty kind, under which nothing is registered)
    is dropped: the result, objects or error, is the one the manifest
    gives without that document. *)
Theorem C8_empty_dropped_malformed_aborts (scheme : Scheme)
    (yamlData : string) :
  (∀ docs err rest,
     yaml_NewYAMLOrJSONDecoder yamlData = (Ok <$> docs) ++ Err err :: rest →
     ConvertYAMLToObjects scheme yamlData = Err err)
  ∧ (∀ objs,
       ConvertYAMLToObjects scheme yamlData = Ok objs →
       ∃ docs, yaml_NewYAMLOrJSONDecoder yamlData = Ok <$> docs)
  ∧ (∀ before obj after err,
       yaml_NewYAMLOrJSONDecoder yamlData = before ++ Ok obj :: after →
       u_Object obj = ∅ →
       scheme_New scheme (u_GroupVersionKind obj) = Err err →
       decodeDocument scheme obj = []
       ∧ ConvertYAMLToObjects scheme yamlData
         = decodeLoop scheme (before ++ after) []).
Proof.
  split_and!.
  - intros docs err rest Hdecoder.
    unfold ConvertYAMLToObjects. rewrite Hdecoder. apply decodeLoop_error.
  - intros objs Hobjs. unfold ConvertYAMLToObjects in Hobjs.
    destruct (decoder_split (yaml_NewYAMLOrJSONDecoder yamlData))
      as [Hdocs|(docs & err & rest & Hdecoder)]; [done|].
    rewrite Hdecoder, decodeLoop_error in Hobjs. discriminate.
  - intros before obj after err Hdecoder Hempty Hnew.
    assert (decodeDocument scheme obj = []) as Hdrop
      by by eapply decodeDocument_empty.
    split; [done|].
    unfold ConvertYAMLToObjects. rewrite Hdecoder.
    by apply decodeLoop_drop.
Qed.

End decoder_facts.

(** ** Namespace and owner reference *)

Lemma GetNamespace_SetNamespace (namespace : string) (o : Object) :
  GetNamespace (SetNamespace namespace o) = namespace.
Proof. by destruct o. Qed.

Lemma GetNamespace_SetOwnerReferences (references : list OwnerReference)
    (o : Object) :
  GetNamespace (SetOwnerReferences references o) = GetNamespace o.
Proof. by destruct o. Qed.

Lemma GetOwnerReferences_SetOwnerReferences
    (references : list OwnerReference) (o : Object) :
  GetOwnerReferences (SetOwnerReferences references o) = references.
Proof. by destruct o. Qed.

Lemma GetGroupVersionKind_SetNamespace (namespace : string) (o : Object) :
  GetGroupVersionKind (SetNamespace namespace o) = GetGroupVersionKind o.
Proof. by destruct o. Qed.

Section stamping_facts.

Context `{!Imports}.

(** [renderChartToObjects] is the render of the derived values followed
    by the stamping of the namespace. *)
Lemma renderChartToObjects_unfold (d : Deployer)
    (environ : gmap string string) (gw : Gateway) :
  renderChartToObjects d environ gw
  = match Render d (gw_Name gw) (gw_Namespace gw)
            (chartValues d environ gw
               (gatewayPort_json <$> gwPortsOf (gw_Listeners gw))) with
    | Err err => Err err
    | Ok objs => Ok (SetNamespace (gw_Namespace gw) <$> objs)
    end.
Proof. done. Qed.

Lemma renderChartToObjects_Ok (d : Deployer) (environ : gmap string string)
    (gw : Gateway) (objs : list Object) :
  renderChartToObjects d environ gw = Ok objs →
  ∃ rendered,
    Render d (gw_Name gw) (gw_Namespace gw)
      (chartValues d environ gw
         (gatewayPort_json <$> gwPortsOf (gw_Listeners gw))) = Ok rendered
    ∧ objs = SetNamespace (gw_Namespace gw) <$> rendered.
Proof.
  rewrite renderChartToObjects_unfold.
  destruct (Render _ _ _ _) as [rendered|err]; [|done].
  intros [= <-]. by exists rendered.
Qed.

Lemma GetObjsToDeploy_Ok (d : Deployer) (environ : gmap string string)
    (gw : Gateway) (objs : list Object) :
  GetObjsToDeploy d environ gw = Ok objs →
  ∃ stamped,
    renderChartToObjects d environ gw = Ok stamped
    ∧ objs = SetOwnerReferences [ownerReferenceOf gw] <$> stamped.
Proof.
  unfold GetObjsToDeploy.
  destruct (renderChartToObjects d environ gw) as [stamped|err]; [|done].
  intros [= <-]. by exists stamped.
Qed.

(** C2.  For every gateway [gw], every object [renderChartToObjects]
    returns, and so every object [GetObjsToDeploy] returns, has the
    namespace of [gw]: what the render gave is returned with every
    namespace set to [gw.Namespace], whatever namespace an object had
    (reading the namespace after setting it gives the namespace set), and
    setting the owner references leaves it alone.  Whenever the render
    succeeds both functions return objects. *)
Theorem C2_namespace_is_the_gateways (d : Deployer)
    (environ : gmap string string) (gw : Gateway) :
  (∀ rendered,
     Render d (gw_Name gw) (gw_Namespace gw)
       (chartValues d environ gw
          (gatewayPort_json <$> gwPortsOf (gw_Listeners gw))) = Ok rendered →
     renderChartToObjects d environ gw
     = Ok (SetNamespace (gw_Namespace gw) <$> rendered)
     ∧ ∃ objs, GetObjsToDeploy d environ gw = Ok objs
               ∧ length objs = length rendered)
  ∧ (∀ objs,
       renderChartToObjects d environ gw = Ok objs →
       Forall (λ obj, GetNamespace obj = gw_Namespace gw) objs)
  ∧ (∀ objs,
       GetObjsToDeploy d environ gw = Ok objs →
       Forall (λ obj, GetNamespace obj = gw_Namespace gw) objs)
  ∧ (∀ namespace obj, GetNamespace (SetNamespace namespace obj) = namespace).
Proof.
  assert (∀ objs,
            renderChartToObjects d environ gw = Ok objs →
            Forall (λ obj, GetNamespace obj = gw_Namespace gw) objs)
    as Hrender.
  { intros objs (rendered & _ & ->)%renderChartToObjects_Ok.
    apply Forall_fmap, Forall_true. intros obj; simpl.
    apply GetNamespace_SetNamespace. }
  split_and!.
  - intros rendered Hrendered.
    rewrite renderChartToObjects_unfold, Hrendered. split; [done|].
    unfold GetObjsToDeploy.
    rewrite renderChartToObjects_unfold, Hrendered; simpl.
    eexists. split; [done|]. by rewrite !length_fmap.
  - done.
  - intros objs (stamped & Hstamped & ->)%GetObjsToDeploy_Ok.
    apply Forall_fmap. eapply Forall_impl; [by apply Hrender|].
    intros obj Hobj; simpl. by rewrite GetNamespace_SetOwnerReferences.
  - apply GetNamespace_SetNamespace.
Qed.

(** C3.  For every gateway [gw], every object [GetObjsToDeploy] returns
    has exactly one owner reference: its kind, API version, name and UID
    are those of [gw] and its controller flag points to [true].  The
    objects are those of [renderChartToObjects] with their owner
    references set to that one reference; setting replaces whatever
    references an object had. *)
Theorem C3_single_owner_reference (d : Deployer)
    (environ : gmap string string) (gw : Gateway) :
  (∀ stamped,
     renderChartToObjects d environ gw = Ok stamped →
     GetObjsToDeploy d environ gw
     = Ok (SetOwnerReferences
             [ {| or_Kind := gw_Kind gw;
                  or_APIVersion := gw_APIVersion gw;
                  or_Controller := Some true;
                  or_UID := gw_UID gw;
                  or_Name := gw_Name gw;
                  or_BlockOwnerDeletion := None |} ] <$> stamped))
  ∧ (∀ objs,
       GetObjsToDeploy d environ gw = Ok objs →
       Forall (λ obj,
                 ∃ ref,
                   GetOwnerReferences obj = [ref]
                   ∧ or_Kind ref = gw_Kind gw
                   ∧ or_APIVersion ref = gw_APIVersion gw
                   ∧ or_Name ref = gw_Name gw
                   ∧ or_UID ref = gw_UID gw
                   ∧ or_Controller ref = Some true) objs)
  ∧ (∀ references obj,
       GetOwnerReferences (SetOwnerReferences references obj) = references).
Proof.
  split_and!.
  - intros stamped Hstamped. unfold GetObjsToDeploy. by rewrite Hstamped.
  - intros objs (stamped & Hstamped & ->)%GetObjsToDeploy_Ok.
    apply Forall_fmap, Forall_true. intros obj; simpl.
    exists (ownerReferenceOf gw).
    by rewrite GetOwnerReferences_SetOwnerReferences.
  - apply GetOwnerReferences_SetOwnerReferences.
Qed.

End stamping_facts.

(** ** The kinds to watch *)

Section firstAppearances_facts.

Context {E : Type} `{EqDecision E}.

Lemma list_filter_all (P : E → Prop) `{∀ x, Decision (P x)} (l : list E) :
  (∀ x, P x) → filter P l = l.
Proof.
  intros HP. induction l as [|x l IH]; [done|].
  by rewrite filter_cons_True, IH.
Qed.

Lemma elem_of_firstAppearances (l : list E) (x : E) :
  x ∈ firstAppearances l ↔ x ∈ l.
Proof.
  induction l as [|y l IH]; simpl; [done|].
  rewrite !elem_of_cons, list_elem_of_filter, IH.
  destruct (decide (x = y)) as [->|Hne]; [by split; left|].
  split; [intros [->|[_ Hx]]|intros [->|Hx]]; tauto.
Qed.

Lemma NoDup_firstAppearances (l : list E) : NoDup (firstAppearances l).
Proof.
  induction l as [|y l IH]; simpl; [constructor|].
  constructor.
  - rewrite list_elem_of_filter. by intros [Hne _].
  - by apply NoDup_filter.
Qed.

(** Filtering commutes with taking the first appearances. *)
Lemma firstAppearances_filter (P : E → Prop) `{∀ x, Decision (P x)}
    (l : list E) :
  filter P (firstAppearances l) = firstAppearances (filter P l).
Proof.
  induction l as [|y l IH]; simpl; [done|].
  rewrite !filter_cons. destruct (decide (P y)) as [HP|HP]; simpl.
  - f_equal. rewrite <- IH, !list_filter_filter.
    apply list_filter_iff. intros x. tauto.
  - rewrite <- IH, list_filter_filter.
    apply list_filter_iff. intros x. split; [tauto|].
    intros HPx. split; [done|]. by intros ->.
Qed.

(** The loop that appends an element unless the slice holds it, started
    from a slice without repetition. *)
Lemma foldl_append_unless_contained (acc l : list E) :
  foldl (λ ret x, if negb (slices_Contains ret x) then ret ++ [x] else ret)
        acc l
  = acc ++ firstAppearances (filter (λ x, x ∉ acc) l).
Proof.
  revert acc. induction l as [|x l IH]; intros acc; simpl.
  - by rewrite app_nil_r.
  - rewrite filter_cons.
    destruct (decide (x ∈ acc)) as [Hin|Hnin].
    + rewrite decide_False by (by intros Hacc).
      apply slices_Contains_elem_of in Hin as ->; simpl. apply IH.
    + rewrite decide_True by done.
      destruct (slices_Contains acc x) eqn:Hc.
      { by apply slices_Contains_elem_of in Hc. }
      simpl. rewrite IH, <- app_assoc; simpl. do 2 f_equal.
      rewrite firstAppearances_filter, list_filter_filter.
      f_equal. apply list_filter_iff. intros y.
      rewrite elem_of_app, list_elem_of_singleton. tauto.
Qed.

End firstAppearances_facts.

Section watch_facts.

Context `{!Imports}.

Lemma foldl_appendGvk (objs : list Object) :
  foldl appendGvk [] objs = firstAppearances (GetGroupVersionKind <$> objs).
Proof.
  transitivity
    (foldl (λ ret x, if negb (slices_Contains ret x) then ret ++ [x] else ret)
           [] (GetGroupVersionKind <$> objs)).
  - by rewrite foldl_fmap.
  - rewrite foldl_append_unless_contained; simpl. f_equal.
    apply list_filter_all. intros x. apply not_elem_of_nil.
Qed.

Lemma firstAppearances_sublist {E : Type} `{EqDecision E} (l : list E) :
  firstAppearances l `sublist_of` l.
Proof.
  induction l as [|x l IH]; simpl; [done|].
  apply sublist_skip. etrans; [apply sublist_filter|done].
Qed.

(** C9.  [GetGvksToWatch] renders the chart for the gateway [fakeGw],
    whose name and namespace are ["default"] and which has no listener
    (so the render gets an empty list of ports), through
    [renderChartToObjects]: the objects it looks at carry the owner
    references the decoder gave them, and the function has no client and
    no cluster to act on.  When the render fails the error is returned.
    Otherwise the result is the list of the group-version-kinds of the
    rendered objects in the order of their first appearance: it has no
    repetition, it holds exactly the kinds of the objects, and it is a
    sublist of the kinds in manifest order. *)
Theorem C9_GetGvksToWatch_distinct_kinds (d : Deployer)
    (environ : gmap string string) :
  let render :=
    Render d "default" "default" (chartValues d environ fakeGw []) in
  fakeGw = mkGateway "" "" "default" "default" "" []
  ∧ renderChartToObjects d environ fakeGw
    = match render with
      | Err err => Err err
      | Ok rendered => Ok (SetNamespace "default" <$> rendered)
      end
  ∧ (∀ objs,
       renderChartToObjects d environ fakeGw = Ok objs →
       ∃ rendered,
         render = Ok rendered
         ∧ GetOwnerReferences <$> objs = GetOwnerReferences <$> rendered)
  ∧ (∀ err, render = Err err → GetGvksToWatch d environ = Err err)
  ∧ (∀ rendered,
       render = Ok rendered →
       GetGvksToWatch d environ
       = Ok (firstAppearances (GetGroupVersionKind <$> rendered)))
  ∧ (∀ gvks,
       GetGvksToWatch d environ = Ok gvks →
       NoDup gvks
       ∧ ∃ rendered,
           render = Ok rendered
           ∧ gvks `sublist_of` (GetGroupVersionKind <$> rendered)
           ∧ ∀ gvk, gvk ∈ gvks
                    ↔ ∃ obj, obj ∈ rendered ∧ GetGroupVersionKind obj = gvk).
Proof.
  intros render.
  assert (∀ rendered,
            render = Ok rendered →
            GetGvksToWatch d environ
            = Ok (firstAppearances (GetGroupVersionKind <$> rendered)))
    as Hok.
  { intros rendered Hrendered. unfold GetGvksToWatch.
    rewrite renderChartToObjects_unfold; simpl. fold render.
    rewrite Hrendered, foldl_appendGvk. do 2 f_equal.
    rewrite <- list_fmap_compose. apply list_fmap_ext.
    intros i obj _; simpl. apply GetGroupVersionKind_SetNamespace. }
  split_and!.
  - done.
  - done.
  - intros objs (rendered & Hrendered & ->)%renderChartToObjects_Ok.
    exists rendered. split; [done|].
    rewrite <- list_fmap_compose. apply list_fmap_ext.
    intros i obj _; simpl. by destruct obj.
  - intros err Herr. unfold GetGvksToWatch.
    rewrite renderChartToObjects_unfold; simpl. fold render.
    by rewrite Herr.
  - done.
  - intros gvks Hgvks.
    destruct render as [rendered|err] eqn:Hrender.
    + rewrite (Hok rendered eq_refl) in Hgvks. injection Hgvks as <-.
      split; [apply NoDup_firstAppearances|].
      exists rendered. split_and!; [done|apply firstAppearances_sublist|].
      intros gvk. rewrite elem_of_firstAppearances, list_elem_of_fmap.
      split; intros (obj & H1 & H2); exists obj; by split.
    + unfold GetGvksToWatch in Hgvks.
      rewrite renderChartToObjects_unfold in Hgvks; simpl in Hgvks.
      fold render in Hgvks. by rewrite Hrender in Hgvks.
Qed.

End watch_facts.

(** ** Applying the objects *)

Section apply_facts.

Context `{!Imports} {Cluster : Type}.

(** The options every patch is issued with. *)
Lemma DeployObjs_cons (d : Deployer) (obj : Object) (objs : list Object)
    (cli : Client Cluster) (cluster : Cluster) :
  DeployObjs d (obj :: objs) cli cluster
  = match Patch cli obj client_Apply
            [client_ForceOwnership;
             client_FieldOwner (ControllerName (inputs d))] cluster with
    | (Some err, cluster) =>
        (Some (fmt_Errorf_w
                 ("failed to apply object "
                  +:+ GroupVersionKind_String (GetGroupVersionKind obj)
                  +:+ " " +:+ GetName obj +:+ ": ") err),
         cluster)
    | (None, cluster) => DeployObjs d objs cli cluster
    end.
Proof. done. Qed.

(** When the first objects are applied without error, the loop goes on
    with the others from the cluster they left. *)
Lemma DeployObjs_app (d : Deployer) (applied rest : list Object)
    (cli : Client Cluster) (cluster cluster1 : Cluster) :
  DeployObjs d applied cli cluster = (None, cluster1) →
  DeployObjs d (applied ++ rest) cli cluster = DeployObjs d rest cli cluster1.
Proof.
  revert cluster. induction applied as [|obj applied IH]; intros cluster.
  - by intros [= ->].
  - simpl app. rewrite !DeployObjs_cons.
    destruct (Patch cli obj _ _ cluster) as [[err|] cluster']; [done|].
    apply IH.
Qed.

(** A result without error means every object was patched, in order. *)
Lemma DeployObjs_None (d : Deployer) (objs : list Object)
    (cli : Client Cluster) (cluster cluster' : Cluster) :
  DeployObjs d objs cli cluster = (None, cluster') →
  ∀ applied obj rest,
    objs = applied ++ obj :: rest →
    ∃ cluster1 cluster2,
      DeployObjs d applied cli cluster = (None, cluster1)
      ∧ Patch cli obj client_Apply
          [client_ForceOwnership;
           client_FieldOwner (ControllerName (inputs d))] cluster1
        = (None, cluster2).
Proof.
  intros Hnone applied. revert cluster objs Hnone.
  induction applied as [|obj' applied IH];
    intros cluster objs Hnone obj rest ->.
  - simpl in Hnone. exists cluster.
    destruct (Patch cli obj _ _ cluster) as [[err|] cluster2]; [done|].
    by exists cluster2.
  - simpl app in Hnone. rewrite DeployObjs_cons in Hnone.
    rewrite DeployObjs_cons.
    destruct (Patch cli obj' _ _ cluster) as [[err|] cluster0]; [done|].
    by eapply IH.
Qed.

(** C7.  [DeployObjs] patches the objects one by one in the order of the
    list, each with the apply patch, forced ownership and the controller
    name of the inputs as field owner.  With no object it returns no
    error and the cluster as it was.  When the objects before [obj] are
    applied without error and the patch of [obj] fails with [err], it
    returns the error [failed to apply object <group/version, Kind=kind>
    <name>: err] for that object, and the cluster is the one the applied
    objects and the failed patch left: nothing is undone, and the objects
    after [obj] do not matter, none of them is patched.  When the last
    patch succeeds too it returns no error; and it returns no error only
    when every object was patched without error, in order. *)
Theorem C7_DeployObjs_stops_at_first_failure (d : Deployer)
    (objs : list Object) (cli : Client Cluster) (cluster : Cluster) :
  let options :=
    [client_ForceOwnership; client_FieldOwner (ControllerName (inputs d))] in
  DeployObjs d [] cli cluster = (None, cluster)
  ∧ (∀ applied obj rest cluster1 cluster2 err,
       objs = applied ++ obj :: rest →
       DeployObjs d applied cli cluster = (None, cluster1) →
       Patch cli obj client_Apply options cluster1 = (Some err, cluster2) →
       ∃ failure,
         DeployObjs d objs cli cluster = (Some failure, cluster2)
         ∧ failure
           = fmt_Errorf_w
               ("failed to apply object "
                +:+ GroupVersionKind_String (GetGroupVersionKind obj)
                +:+ " " +:+ GetName obj +:+ ": ") err
         ∧ Error failure
           = "failed to apply object "
             +:+ (Group (GetGroupVersionKind obj) +:+ "/"
                  +:+ Version (GetGroupVersionKind obj) +:+ ", Kind="
                  +:+ Kind (GetGroupVersionKind obj))
             +:+ " " +:+ GetName obj +:+ ": " +:+ Error err
         ∧ ∀ others,
             DeployObjs d (applied ++ obj :: others) cli cluster
             = (Some failure, cluster2))
  ∧ (∀ applied obj cluster1 cluster2,
       objs = applied ++ [obj] →
       DeployObjs d applied cli cluster = (None, cluster1) →
       Patch cli obj client_Apply options cluster1 = (None, cluster2) →
       DeployObjs d objs cli cluster = (None, cluster2))
  ∧ (∀ cluster',
       DeployObjs d objs cli cluster = (None, cluster') →
       ∀ applied obj rest,
         objs = applied ++ obj :: rest →
         ∃ cluster1 cluster2,
           DeployObjs d applied cli cluster = (None, cluster1)
           ∧ Patch cli obj client_Apply options cluster1 = (None, cluster2)).
Proof.
  intros options. split_and!.
  - done.
  - intros applied obj rest cluster1 cluster2 err -> Happlied Hpatch.
    eexists. split_and!.
    + rewrite (DeployObjs_app _ _ _ _ _ _ Happlied), DeployObjs_cons.
      fold options. by rewrite Hpatch.
    + done.
    + simpl. unfold GroupVersionKind_String.
      by rewrite !string_append_assoc.
    + intros others.
      rewrite (DeployObjs_app _ _ _ _ _ _ Happlied), DeployObjs_cons.
      fold options. by rewrite Hpatch.
  - intros applied obj cluster1 cluster2 -> Happlied Hpatch.
    rewrite (DeployObjs_app _ _ _ _ _ _ Happlied), DeployObjs_cons.
    fold options. by rewrite Hpatch.
  - intros cluster' Hnone. by eapply DeployObjs_None.
Qed.

End apply_facts.

(** ** The theorems at work in the small world *)

(** C1 at the listeners (80, "a"), (80, "b"), (443, "c"): the third
    listener is the first with port 443, so its entry is kept. *)
Lemma C1_witness :
  @portEntry exampleImports (mkListener "c" 443 "HTTPS")
  ∈ @gwPortsOf exampleImports exampleListeners.
Proof.
  destruct (@C1_gwPorts_first_listener_per_port exampleImports
              exampleListeners) as (_ & _ & _ & _ & Hfirst & _).
  apply (Hfirst [mkListener "a" 80 "HTTP"; mkListener "b" 80 "HTTP"]
           (mkListener "c" 443 "HTTPS") []).
  - reflexivity.
  - apply (bool_decide_unpack _). vm_compute. exact I.
Defined.

(** C6 at an override with one colon. *)
Lemma C6_witness :
  @getDeployerImageValues exampleImports {[ "DEPLOYER_IMAGE" := "repo:1.0" ]}
  = {[ "repository" := AStr "repo"; "tag" := AStr "1.0" ]}.
Proof.
  destruct (@C6_getDeployerImageValues_override exampleImports
              {[ "DEPLOYER_IMAGE" := "repo:1.0" ]}) as (_ & Htwo & _).
  apply (Htwo "repo" "1.0"). vm_compute. reflexivity.
Defined.

(** C10 at an override with two colons (a registry with a port). *)
Lemma C10_witness :
  @getDeployerImageValues exampleImports
     {[ "DEPLOYER_IMAGE" := "localhost:5000/repo:1.0" ]}
  = {[ "tag" := AStr "" ]}.
Proof.
  refine (proj1 (@C10_fallback_sets_only_tag exampleImports
                   {[ "DEPLOYER_IMAGE" := "localhost:5000/repo:1.0" ]} _)).
  right. vm_compute. lia.
Defined.

(** C4 at the manifest of the example: all four documents decode, and the
    custom resource, whose kind the scheme does not know, is kept as it
    was decoded. *)
Lemma C4_witness :
  @ConvertYAMLToObjects exampleImports exampleScheme exampleManifest
  = Ok (exampleDocs ≫= @decodeDocument exampleImports exampleScheme)
  ∧ @decodeDocument exampleImports exampleScheme customDoc
    = [Generic customDoc].
Proof.
  destruct (@C4_decoder_keeps_every_document exampleImports exampleScheme
              exampleManifest exampleDocs eq_refl)
    as (Hall & _ & _ & _ & _ & Hunknown & _).
  split; [exact Hall|].
  apply (Hunknown customDoc (errors_New "no kind is registered for the type")).
  - vm_compute. discriminate.
  - reflexivity.
Defined.

(** C8 at a text whose second document is malformed, and at the manifest
    of the example, whose second document is empty. *)
Lemma C8_witness :
  @ConvertYAMLToObjects exampleImports exampleScheme "not a manifest"
  = Err (errors_New "yaml: did not find expected key")
  ∧ @ConvertYAMLToObjects exampleImports exampleScheme exampleManifest
    = @decodeLoop exampleImports exampleScheme
        ([Ok serviceDoc] ++ [Ok customDoc; Ok metricsDoc]) [].
Proof.
  split.
  - destruct (@C8_empty_dropped_malformed_aborts exampleImports exampleScheme
                "not a manifest") as (Hmalformed & _).
    apply (Hmalformed [serviceDoc]
             (errors_New "yaml: did not find expected key") [Ok customDoc]).
    vm_compute. reflexivity.
  - destruct (@C8_empty_dropped_malformed_aborts exampleImports exampleScheme
                exampleManifest) as (_ & _ & Hempty).
    apply (Hempty [Ok serviceDoc] emptyDoc [Ok customDoc; Ok metricsDoc]
             (errors_New "no kind is registered for the type")).
    + vm_compute. reflexivity.
    + reflexivity.
    + vm_compute. reflexivity.
Defined.

(** C2 at the gateway of the example, in namespace ["ns1"]: the template
    put the first service in another namespace and the rest in none. *)
Lemma C2_witness :
  ∃ objs,
    @GetObjsToDeploy exampleImports exampleDeployer ∅ exampleGateway = Ok objs
    ∧ length objs = 3%nat
    ∧ Forall (λ obj, GetNamespace obj = "ns1") objs.
Proof.
  destruct (@C2_namespace_is_the_gateways exampleImports exampleDeployer ∅
              exampleGateway) as (Htotal & _ & Hdeploy & _).
  edestruct Htotal as (_ & objs & Hobjs & Hlength).
  { vm_compute. reflexivity. }
  exists objs. split; [exact Hobjs|]. split; [exact Hlength|].
  exact (Hdeploy objs Hobjs).
Defined.

(** C3 at the same gateway: the custom resource came with an owner
    reference of the template's, which is replaced. *)
Lemma C3_witness :
  ∃ objs,
    @GetObjsToDeploy exampleImports exampleDeployer ∅ exampleGateway = Ok objs
    ∧ Forall (λ obj,
                ∃ ref,
                  GetOwnerReferences obj = [ref]
                  ∧ or_Kind ref = "Gateway"
                  ∧ or_APIVersion ref = "gateway.networking.k8s.io/v1"
                  ∧ or_Name ref = "gw"
                  ∧ or_UID ref = "uid-1"
                  ∧ or_Controller ref = Some true) objs.
Proof.
  destruct (@C3_single_owner_reference exampleImports exampleDeployer ∅
              exampleGateway) as (Htotal & Hone & _).
  eexists. split.
  - apply Htotal. vm_compute. reflexivity.
  - apply Hone. apply Htotal. vm_compute. reflexivity.
Defined.

(** C7 at three objects of which the second is refused: the first stays
    applied and the third is not tried. *)
Lemma C7_witness :
  DeployObjs exampleDeployer
    ([Generic serviceDoc] ++ Generic customDoc :: [Generic metricsDoc])
    exampleClient []
  = (Some (fmt_Errorf_w
             ("failed to apply object "
              +:+ GroupVersionKind_String customGVK +:+ " " +:+ "broken"
              +:+ ": ")
             (errors_New "admission webhook denied the request")),
     ["gw"]).
Proof.
  destruct (@C7_DeployObjs_stops_at_first_failure (list string)
              exampleDeployer
              ([Generic serviceDoc] ++ Generic customDoc
                 :: [Generic metricsDoc])
              exampleClient [])
    as (_ & Hfail & _).
  destruct (Hfail [Generic serviceDoc] (Generic customDoc)
              [Generic metricsDoc] ["gw"] ["gw"]
              (errors_New "admission webhook denied the request")
              eq_refl eq_refl eq_refl)
    as (failure & Hresult & -> & _).
  exact Hresult.
Defined.

(** C9 in the small world: two services and a custom resource give two
    kinds. *)
Lemma C9_witness :
  @GetGvksToWatch exampleImports exampleDeployer ∅
  = Ok (firstAppearances [serviceGVK; customGVK; serviceGVK])
  ∧ firstAppearances [serviceGVK; customGVK; serviceGVK]
    = [serviceGVK; customGVK].
Proof.
  destruct (@C9_GetGvksToWatch_distinct_kinds exampleImports exampleDeployer
              ∅) as (_ & _ & _ & _ & Hok & _).
  split; [|vm_compute; reflexivity].
  erewrite Hok; [|vm_compute; reflexivity].
  vm_compute. reflexivity.
Defined.

(* ===================================================================== *)
(** * Part III: further properties *)
(* ===================================================================== *)

(** ** Further properties of the manifest decoder *)

Section decoder_closed_form.

Context `{!Imports}.

Lemma decodeDocument_keeps (scheme : Scheme) (obj : Unstructured) :
  decodeDocument scheme obj
  = if keepsDocument scheme obj then [representation scheme obj] else [].
Proof.
  unfold decodeDocument, keepsDocument, schemeKnows, representation,
    typedRepresentation; simpl.
  destruct (scheme_New scheme (u_GroupVersionKind obj)) as [[realObj|]|err].
  - rewrite orb_true_r. by destruct (FromUnstructured (u_Object obj) realObj).
  - by rewrite orb_true_r.
  - rewrite orb_false_r.
    destruct (decide (size (u_Object obj) = 0%nat)) as [Hsize|Hsize].
    + by rewrite bool_decide_eq_true_2.
    + by rewrite bool_decide_eq_false_2.
Qed.

Lemma decodeLoop_closed_form (scheme : Scheme)
    (decoder : list (result Unstructured)) (objs : list Object) :
  decodeLoop scheme decoder objs
  = match firstDecodeError decoder with
    | Some err => Err err
    | None =>
        Ok (objs ++ (representation scheme
                       <$> List.filter (keepsDocument scheme)
                             (decodedBeforeError decoder)))
    end.
Proof.
  revert objs. induction decoder as [|[obj|err] decoder IH]; intros objs.
  - simpl. by rewrite app_nil_r.
  - rewrite decodeLoop_cons, IH, decodeDocument_keeps. simpl.
    destruct (firstDecodeError decoder); [done|].
    destruct (keepsDocument scheme obj); simpl.
    + by rewrite <- app_assoc.
    + by rewrite app_nil_r.
  - done.
Qed.

Lemma List_filter_length {X : Type} (f : X → bool) (l : list X) :
  (length (List.filter f l) ≤ length l)%nat.
Proof.
  induction l as [|x l IH]; simpl; [lia|]. destruct (f x); simpl; lia.
Qed.

Lemma decodedBeforeError_elem (decoder : list (result Unstructured))
    (obj : Unstructured) :
  obj ∈ decodedBeforeError decoder → Ok obj ∈ decoder.
Proof.
  induction decoder as [|[obj'|err] decoder IH]; simpl.
  - by intros ?%elem_of_nil.
  - intros [->|Hin]%elem_of_cons; [left|right; auto].
  - by intros ?%elem_of_nil.
Qed.

Lemma decodedBeforeError_length (decoder : list (result Unstructured)) :
  (length (decodedBeforeError decoder) ≤ length decoder)%nat.
Proof.
  induction decoder as [|[obj|err] decoder IH]; simpl; lia.
Qed.

(** X1.  [ConvertYAMLToObjects] in closed form, for every scheme and
    every manifest: the result is the first error among the outcomes of
    the decoder when there is one; otherwise it is the list of the
    representations of the documents kept, in order, where a document is
    kept when it has fields or the scheme creates an object for its
    kind.  So there are never more objects than documents, a manifest
    without documents gives the empty list and no error, and with a
    scheme in which nothing is registered the result is the documents
    that have fields, each as it was decoded. *)
Theorem X1_ConvertYAMLToObjects_closed_form (scheme : Scheme)
    (yamlData : string) :
  let decoder := yaml_NewYAMLOrJSONDecoder yamlData in
  ConvertYAMLToObjects scheme yamlData
  = match firstDecodeError decoder with
    | Some err => Err err
    | None =>
        Ok (representation scheme
              <$> List.filter (keepsDocument scheme)
                    (decodedBeforeError decoder))
    end
  ∧ (∀ objs, ConvertYAMLToObjects scheme yamlData = Ok objs →
             (length objs ≤ length decoder)%nat)
  ∧ (decoder = [] → ConvertYAMLToObjects scheme yamlData = Ok [])
  ∧ (firstDecodeError decoder = None →
     ConvertYAMLToObjects emptyScheme yamlData
     = Ok (Generic
             <$> List.filter
                   (λ obj, negb (bool_decide (size (u_Object obj) = 0%nat)))
                   (decodedBeforeError decoder))).
Proof.
  intros decoder.
  assert (∀ scheme',
            ConvertYAMLToObjects scheme' yamlData
            = match firstDecodeError decoder with
              | Some err => Err err
              | None =>
                  Ok (representation scheme'
                        <$> List.filter (keepsDocument scheme')
                              (decodedBeforeError decoder))
              end) as Hform.
  { intros scheme'. unfold ConvertYAMLToObjects. fold decoder.
    by rewrite decodeLoop_closed_form. }
  split_and!.
  - apply Hform.
  - intros objs. rewrite Hform.
    destruct (firstDecodeError decoder); [done|]. intros [= <-].
    rewrite length_fmap.
    etrans; [apply List_filter_length|apply decodedBeforeError_length].
  - intros Hnone. rewrite Hform, Hnone. done.
  - intros Hnone. rewrite Hform, Hnone. f_equal.
    rewrite (filter_ext (keepsDocument emptyScheme)
               (λ obj, negb (bool_decide (size (u_Object obj) = 0%nat))))
      by (intros obj; apply orb_false_r).
    by apply list_fmap_ext.
Qed.

(** X2.  Where the objects of [ConvertYAMLToObjects] come from: a generic
    object is one of the decoded documents, returned as it was decoded;
    a typed object is the conversion of the fields of a decoded document
    into the object the scheme created for that document's kind.  No
    object is made up, and no typed object stands for a kind the scheme
    does not know. *)
Theorem X2_ConvertYAMLToObjects_provenance (scheme : Scheme)
    (yamlData : string) (objs : list Object) :
  ConvertYAMLToObjects scheme yamlData = Ok objs →
  Forall (λ o,
            match o with
            | Generic obj => Ok obj ∈ yaml_NewYAMLOrJSONDecoder yamlData
            | Typed realObj =>
                ∃ obj realObj0,
                  Ok obj ∈ yaml_NewYAMLOrJSONDecoder yamlData
                  ∧ scheme_New scheme (u_GroupVersionKind obj)
                    = Ok (ClientObject realObj0)
                  ∧ FromUnstructured (u_Object obj) realObj0 = Ok realObj
            end) objs.
Proof.
  unfold ConvertYAMLToObjects. rewrite decodeLoop_closed_form.
  destruct (firstDecodeError _); [done|]. intros [= <-].
  apply Forall_fmap, Forall_forall. intros obj Hobj; simpl.
  apply list_elem_of_In, filter_In in Hobj as [Hobj _].
  apply list_elem_of_In, decodedBeforeError_elem in Hobj.
  unfold representation, typedRepresentation.
  destruct (scheme_New scheme (u_GroupVersionKind obj))
    as [[realObj0|]|err] eqn:Hnew; [|done..].
  destruct (FromUnstructured (u_Object obj) realObj0) as [realObj|err]
    eqn:Hconv; [|done].
  by exists obj, realObj0.
Qed.

End decoder_closed_form.

(** ** Rendering, stamping and deploying, end to end *)

Section render_outcomes.

Context `{!Imports}.

Lemma Render_closed_form (d : Deployer) (name ns : string)
    (vals : gmap string any) :
  Render d name ns vals
  = match chart_Run (chart d) name ns vals with
    | Err err => Err (fmt_Errorf_w "failed to render helm chart: " err)
    | Ok manifest =>
        match firstDecodeError (yaml_NewYAMLOrJSONDecoder manifest) with
        | Some err =>
            Err (fmt_Errorf_w "failed to convert yaml to objects: " err)
        | None =>
            Ok (representation (scheme d)
                  <$> List.filter (keepsDocument (scheme d))
                        (decodedBeforeError
                           (yaml_NewYAMLOrJSONDecoder manifest)))
        end
    end.
Proof.
  unfold Render.
  destruct (chart_Run (chart d) name ns vals) as [manifest|err]; simpl;
    [|done].
  unfold ConvertYAMLToObjects. rewrite decodeLoop_closed_form.
  by destruct (firstDecodeError _).
Qed.

Lemma renderChartToObjects_closed_form (d : Deployer)
    (environ : gmap string string) (gw : Gateway) :
  renderChartToObjects d environ gw
  = match chart_Run (chart d) (gw_Name gw) (gw_Namespace gw)
            (chartValues d environ gw
               (gatewayPort_json <$> gwPortsOf (gw_Listeners gw))) with
    | Err err => Err (fmt_Errorf_w "failed to render helm chart: " err)
    | Ok manifest =>
        match firstDecodeError (yaml_NewYAMLOrJSONDecoder manifest) with
        | Some err =>
            Err (fmt_Errorf_w "failed to convert yaml to objects: " err)
        | None =>
            Ok (SetNamespace (gw_Namespace gw)
                  <$> (representation (scheme d)
                         <$> List.filter (keepsDocument (scheme d))
                               (decodedBeforeError
                                  (yaml_NewYAMLOrJSONDecoder manifest))))
        end
    end.
Proof.
  rewrite renderChartToObjects_unfold, Render_closed_form.
  destruct (chart_Run _ _ _ _) as [manifest|err]; [|done].
  by destruct (firstDecodeError _).
Qed.

(** X3.  [renderChartToObjects] in terms of what it calls, for every
    deployer, environment and gateway.  The chart is run once, for the
    release name [gw.Name], in the namespace [gw.Namespace], with the
    derived values.  When that run fails the result is its error behind
    ["failed to render helm chart: "]; when a document of the manifest
    fails to decode, the first such error behind ["failed to convert
    yaml to objects: "]; otherwise the documents kept, each in its
    representation with the namespace set.  So the function succeeds
    exactly when the chart renders and every document decodes: neither
    the listeners, nor the image override, nor a kind unknown to the
    scheme makes it fail. *)
Theorem X3_renderChartToObjects_outcomes (d : Deployer)
    (environ : gmap string string) (gw : Gateway) :
  let run :=
    chart_Run (chart d) (gw_Name gw) (gw_Namespace gw)
      (chartValues d environ gw
         (gatewayPort_json <$> gwPortsOf (gw_Listeners gw))) in
  renderChartToObjects d environ gw
  = match run with
    | Err err => Err (fmt_Errorf_w "failed to render helm chart: " err)
    | Ok manifest =>
        match firstDecodeError (yaml_NewYAMLOrJSONDecoder manifest) with
        | Some err =>
            Err (fmt_Errorf_w "failed to convert yaml to objects: " err)
        | None =>
            Ok (SetNamespace (gw_Namespace gw)
                  <$> (representation (scheme d)
                         <$> List.filter (keepsDocument (scheme d))
                               (decodedBeforeError
                                  (yaml_NewYAMLOrJSONDecoder manifest))))
        end
    end
  ∧ ((∃ objs, renderChartToObjects d environ gw = Ok objs)
     ↔ ∃ manifest,
         run = Ok manifest
         ∧ firstDecodeError (yaml_NewYAMLOrJSONDecoder manifest) = None).
Proof.
  intros run.
  pose proof (renderChartToObjects_closed_form d environ gw) as Hform.
  fold run in Hform.
  split; [exact Hform|].
  rewrite Hform. destruct run as [manifest|err].
  - destruct (firstDecodeError _) as [err|] eqn:Herr.
    + split; [by intros [objs ?]|].
      intros (manifest' & [= <-] & Hnone). congruence.
    + split; [|by eexists]. intros _. by exists manifest.
  - split; [by intros [objs ?]|]. by intros (manifest & ? & _).
Qed.

(** X4.  How [GetObjsToDeploy] and [GetGvksToWatch] fail.  An error of
    [GetObjsToDeploy] reads ["failed to get objects to deploy: failed to
    render helm chart: "] followed by the message of the chart run's
    error, or ["failed to get objects to deploy: failed to convert yaml
    to objects: "] followed by the message of the first decode error;
    unwrapping it to the end gives the root cause of that error.
    [GetGvksToWatch] returns the same two errors without the first
    prefix. *)
Theorem X4_error_messages (d : Deployer) (environ : gmap string string)
    (gw : Gateway) (e : error) :
  let run gw :=
    chart_Run (chart d) (gw_Name gw) (gw_Namespace gw)
      (chartValues d environ gw
         (gatewayPort_json <$> gwPortsOf (gw_Listeners gw))) in
  let causes gw inner :=
    (∃ err, run gw = Err err
            ∧ inner = fmt_Errorf_w "failed to render helm chart: " err
            ∧ Error inner = "failed to render helm chart: " +:+ Error err
            ∧ rootCause inner = rootCause err)
    ∨ (∃ manifest err,
         run gw = Ok manifest
         ∧ firstDecodeError (yaml_NewYAMLOrJSONDecoder manifest) = Some err
         ∧ inner = fmt_Errorf_w "failed to convert yaml to objects: " err
         ∧ Error inner = "failed to convert yaml to objects: " +:+ Error err
         ∧ rootCause inner = rootCause err) in
  (GetObjsToDeploy d environ gw = Err e →
   ∃ inner,
     causes gw inner
     ∧ errors_Unwrap e = Some inner
     ∧ Error e = "failed to get objects to deploy: " +:+ Error inner
     ∧ rootCause e = rootCause inner)
  ∧ (GetGvksToWatch d environ = Err e → causes fakeGw e).
Proof.
  intros run causes.
  assert (∀ gw' inner,
            renderChartToObjects d environ gw' = Err inner →
            causes gw' inner) as Hcauses.
  { intros gw' inner.
    rewrite renderChartToObjects_closed_form.
    fold (run gw'). unfold causes.
    destruct (run gw') as [manifest|err].
    - destruct (firstDecodeError _) as [err|] eqn:Herr; [|done].
      intros [= <-]. right. by exists manifest, err.
    - intros [= <-]. left. by exists err. }
  split.
  - unfold GetObjsToDeploy.
    destruct (renderChartToObjects d environ gw) as [objs|inner] eqn:Hrender;
      [done|].
    simpl. intros [= <-]. exists inner. split; [by apply Hcauses|done].
  - unfold GetGvksToWatch.
    destruct (renderChartToObjects d environ fakeGw) as [objs|inner]
      eqn:Hrender; [done|].
    intros [= <-]. by apply Hcauses.
Qed.

End render_outcomes.

Lemma stamp_frame (gw : Gateway) (obj : Object) :
  GetNamespace (stamp gw obj) = gw_Namespace gw
  ∧ GetOwnerReferences (stamp gw obj) = [ownerReferenceOf gw]
  ∧ GetGroupVersionKind (stamp gw obj) = GetGroupVersionKind obj
  ∧ GetName (stamp gw obj) = GetName obj
  ∧ isTyped (stamp gw obj) = isTyped obj
  ∧ objectFields (stamp gw obj) = objectFields obj.
Proof. by destruct obj. Qed.

Section deploy_end_to_end.

Context `{!Imports}.

Lemma GetObjsToDeploy_stamp (d : Deployer) (environ : gmap string string)
    (gw : Gateway) :
  GetObjsToDeploy d environ gw
  = match renderChartToObjects d environ gw with
    | Err err => Err (fmt_Errorf_w "failed to get objects to deploy: " err)
    | Ok objs => Ok (SetOwnerReferences [ownerReferenceOf gw] <$> objs)
    end.
Proof.
  unfold GetObjsToDeploy. by destruct (renderChartToObjects d environ gw).
Qed.

Lemma GetObjsToDeploy_rendered (d : Deployer) (environ : gmap string string)
    (gw : Gateway) (objs : list Object) :
  GetObjsToDeploy d environ gw = Ok objs →
  ∃ rendered,
    Render d (gw_Name gw) (gw_Namespace gw)
      (chartValues d environ gw
         (gatewayPort_json <$> gwPortsOf (gw_Listeners gw))) = Ok rendered
    ∧ objs = stamp gw <$> rendered.
Proof.
  intros (stamped & Hstamped & ->)%GetObjsToDeploy_Ok.
  apply renderChartToObjects_Ok in Hstamped as (rendered & Hrendered & ->).
  exists rendered. split; [done|].
  by rewrite <- list_fmap_compose.
Qed.


End deploy_end_to_end.

Section deploy_cluster.

Context `{!Imports} {Cluster : Type}.

(** X6.  [Deploy] from end to end, for every client and cluster.  When
    the objects cannot be produced (the chart does not render, or a
    document does not decode) the error of [GetObjsToDeploy] is returned
    and the cluster is the one given: no patch is issued.  Otherwise the
    result is that of [DeployObjs] on the objects, every one of which is
    in the gateway's namespace and owned by the gateway alone.  So
    [Deploy] reports no error only when the chart rendered, every
    document decoded and every patch succeeded, and then the cluster is
    the one left by patching, in manifest order, the stamped
    representations of the documents kept. *)
Theorem X6_Deploy_end_to_end (d : Deployer) (environ : gmap string string)
    (gw : Gateway) (cli : Client Cluster) (cluster : Cluster) :
  let run :=
    chart_Run (chart d) (gw_Name gw) (gw_Namespace gw)
      (chartValues d environ gw
         (gatewayPort_json <$> gwPortsOf (gw_Listeners gw))) in
  (∀ e, GetObjsToDeploy d environ gw = Err e →
        Deploy d environ gw cli cluster = (Some e, cluster))
  ∧ (∀ objs, GetObjsToDeploy d environ gw = Ok objs →
       Deploy d environ gw cli cluster = DeployObjs d objs cli cluster
       ∧ Forall (λ obj,
                   GetNamespace obj = gw_Namespace gw
                   ∧ GetOwnerReferences obj = [ownerReferenceOf gw]) objs)
  ∧ (∀ cluster',
       Deploy d environ gw cli cluster = (None, cluster') →
       ∃ manifest,
         run = Ok manifest
         ∧ firstDecodeError (yaml_NewYAMLOrJSONDecoder manifest) = None
         ∧ DeployObjs d
             (stamp gw
                <$> (representation (scheme d)
                       <$> List.filter (keepsDocument (scheme d))
                             (decodedBeforeError
                                (yaml_NewYAMLOrJSONDecoder manifest))))
             cli cluster
           = (None, cluster')).
Proof.
  intros run. split_and!.
  - intros e He. unfold Deploy. by rewrite He.
  - intros objs Hobjs. split.
    + unfold Deploy. by rewrite Hobjs.
    + apply GetObjsToDeploy_rendered in Hobjs as (rendered & _ & ->).
      apply Forall_fmap, Forall_true. intros obj; simpl.
      split; apply stamp_frame.
  - intros cluster'. unfold Deploy.
    rewrite GetObjsToDeploy_stamp, renderChartToObjects_closed_form.
    fold run. destruct run as [manifest|err]; [|done].
    destruct (firstDecodeError _) eqn:Herr; [done|].
    intros Hdeploy. exists manifest. split_and!; [done..|].
    rewrite <- Hdeploy. f_equal.
    by rewrite <- !list_fmap_compose.
Qed.

Lemma DeployObjs_app_error (d : Deployer) (applied rest : list Object)
    (cli : Client Cluster) (cluster cluster1 : Cluster) (err : error) :
  DeployObjs d applied cli cluster = (Some err, cluster1) →
  DeployObjs d (applied ++ rest) cli cluster = (Some err, cluster1).
Proof.
  revert cluster. induction applied as [|obj applied IH]; intros cluster.
  - done.
  - simpl app. rewrite !DeployObjs_cons.
    destruct (Patch cli obj _ _ cluster) as [[err'|] cluster']; [done|].
    apply IH.
Qed.

(** X7.  [DeployObjs] on two batches in a row: applying the objects of
    [first ++ second] is applying [first] and, when that reports no
    error, applying [second] to the cluster it left; when [first]
    reports an error, that error and that cluster are the result and
    [second] is not looked at.  An error reported is always the error of
    a patch of one of the objects, behind the text that names the
    object. *)
Theorem X7_DeployObjs_batches (d : Deployer) (first second : list Object)
    (cli : Client Cluster) (cluster : Cluster) :
  DeployObjs d (first ++ second) cli cluster
  = match DeployObjs d first cli cluster with
    | (None, cluster1) => DeployObjs d second cli cluster1
    | (Some err, cluster1) => (Some err, cluster1)
    end
  ∧ (∀ err cluster',
       DeployObjs d first cli cluster = (Some err, cluster') →
       ∃ obj cause,
         obj ∈ first
         ∧ err = fmt_Errorf_w
                   ("failed to apply object "
                    +:+ GroupVersionKind_String (GetGroupVersionKind obj)
                    +:+ " " +:+ GetName obj +:+ ": ") cause
         ∧ errors_Unwrap err = Some cause).
Proof.
  split.
  - destruct (DeployObjs d first cli cluster) as [[err|] cluster1] eqn:Hfirst.
    + by apply DeployObjs_app_error.
    + by apply DeployObjs_app.
  - revert cluster. induction first as [|obj first IH]; intros cluster.
    + done.
    + intros err cluster'. rewrite DeployObjs_cons.
      destruct (Patch cli obj _ _ cluster) as [[cause|] cluster1].
      * intros [= <- <-]. exists obj, cause. split; [left|done].
      * intros (obj' & cause & Hin & -> & Hunwrap)%IH.
        exists obj', cause. split; [by right|done].
Qed.

End deploy_cluster.

(** ** Further properties of the port derivation *)

Section ports_more.

Context `{!Imports}.

(** A listener whose port an earlier listener has can be left out. *)
Lemma gwPortsOf_skip (before after : list Listener) (l : Listener) :
  listenerPortOf l ∈ listenerPortOf <$> before →
  gwPortsOf (before ++ l :: after) = gwPortsOf (before ++ after).
Proof.
  intros Hseen. unfold gwPortsOf.
  rewrite (foldl_app _ before (l :: after)), (foldl_app _ before after).
  simpl. f_equal. fold (gwPortsOf before).
  rewrite appendPort_spec, decide_True; [done|].
  by apply gwPortsOf_ports.
Qed.

Lemma gwPortsOf_absorb (listeners more : list Listener) :
  (∀ l, l ∈ more → listenerPortOf l ∈ listenerPortOf <$> listeners) →
  gwPortsOf (listeners ++ more) = gwPortsOf listeners.
Proof.
  induction more as [|l more IH]; intros Hseen.
  - by rewrite app_nil_r.
  - rewrite gwPortsOf_skip by (apply Hseen; left).
    apply IH. intros l' Hl'. apply Hseen. by right.
Qed.

Lemma listenerPortOf_range (l : Listener) : 0 ≤ listenerPortOf l < 65536.
Proof.
  unfold listenerPortOf, uint16. by apply Z.mod_pos_bound.
Qed.

(** X8.  How many entries the port loop makes: as many as there are
    different ports among the listeners, so never more than there are
    listeners and none only when there is no listener.  Listeners whose
    ports were all seen add nothing; in particular going through the
    same listeners twice gives the same entries. *)
Theorem X8_gwPorts_count (listeners : list Listener) :
  length (gwPortsOf listeners)
  = length (remove_dups (listenerPortOf <$> listeners))
  ∧ (length (gwPortsOf listeners) ≤ length listeners)%nat
  ∧ (gwPortsOf listeners = [] ↔ listeners = [])
  ∧ (∀ more,
       (∀ l, l ∈ more → listenerPortOf l ∈ listenerPortOf <$> listeners) →
       gwPortsOf (listeners ++ more) = gwPortsOf listeners)
  ∧ gwPortsOf (listeners ++ listeners) = gwPortsOf listeners.
Proof.
  split_and!.
  - rewrite <- (length_fmap gp_Port).
    apply Permutation_length, NoDup_Permutation.
    + apply gwPortsOf_NoDup.
    + apply NoDup_remove_dups.
    + intros p. by rewrite gwPortsOf_ports, elem_of_remove_dups.
  - rewrite <- (length_fmap portEntry listeners).
    apply sublist_length, gwPortsOf_sublist.
  - split; [|by intros ->].
    destruct listeners as [|l listeners]; [done|].
    intros Hnil. exfalso.
    pose proof (gwPortsOf_first [] listeners l) as Hin.
    simpl in Hin. rewrite Hnil in Hin.
    eapply elem_of_nil, Hin. apply not_elem_of_nil.
  - apply gwPortsOf_absorb.
  - apply gwPortsOf_absorb. intros l Hl. by apply list_elem_of_fmap_2.
Qed.

(** X9.  The port of an entry is a 16-bit value whatever the 32-bit port
    of the listener: it is the listener's port modulo 65536.  So two
    listeners whose ports differ by a multiple of 65536 count as having
    the same port, and the later one is dropped; a listener with port
    65616 gets the entry of port 80, and one with port -1 the entry of
    port 65535. *)
Theorem X9_ports_wrap_to_16_bits (listeners : list Listener) :
  Forall (λ e, 0 ≤ gp_Port e < 65536
               ∧ gp_TargetPort e = ports_TranslatePort (gp_Port e))
    (gwPortsOf listeners)
  ∧ (∀ l, listenerPortOf l = l_Port l `mod` 65536)
  ∧ (∀ before l after,
       listeners = before ++ l :: after →
       (∃ l', l' ∈ before ∧ (l_Port l - l_Port l') `mod` 65536 = 0) →
       gwPortsOf listeners = gwPortsOf (before ++ after))
  ∧ gwPortsOf [mkListener "x" 65616 "HTTP"]
    = [mkGatewayPort 80 "TCP" "x" (ports_TranslatePort 80)]
  ∧ gwPortsOf [mkListener "y" (-1) "HTTP"]
    = [mkGatewayPort 65535 "TCP" "y" (ports_TranslatePort 65535)].
Proof.
  split_and!.
  - apply Forall_forall. intros e He.
    apply gwPortsOf_origin in He as (pre & l & post & _ & _ & ->).
    split; [apply listenerPortOf_range|done].
  - done.
  - intros before l after -> (l' & Hl' & Hmod).
    apply gwPortsOf_skip.
    replace (listenerPortOf l) with (listenerPortOf l').
    + by apply list_elem_of_fmap_2.
    + unfold listenerPortOf, uint16.
      rewrite Zminus_mod in Hmod.
      pose proof (Z.mod_pos_bound (l_Port l) 65536 eq_refl).
      pose proof (Z.mod_pos_bound (l_Port l') 65536 eq_refl).
      destruct (decide (l_Port l `mod` 65536 = l_Port l' `mod` 65536))
        as [Heq|Hne]; [done|].
      exfalso.
      rewrite Z.mod_divide in Hmod by done.
      destruct Hmod as [k Hk]. nia.
  - done.
  - done.
Qed.

End ports_more.

(** ** The ports in the values *)



Section values_ports.

Context `{!Imports}.


End values_ports.

(** ** Further properties of the plugin registry *)

Section registry_more.

Context {Plugin : Type}.
Variable route post : Plugin → bool.

Lemma List_filter_length_split (f : Plugin → bool) (l : list Plugin) :
  (length (List.filter f l) + length (List.filter (λ p, negb (f p)) l)
   = length l)%nat.
Proof.
  induction l as [|p l IH]; simpl; [done|].
  destruct (f p); simpl; lia.
Qed.

(** X11.  Registering more plugins: the registry of [first ++ second]
    has the route plugins of [first] followed by those of [second], and
    likewise the post-translation plugins, so plugins added at the end
    of the list never move or remove the ones before them.  Nothing is
    removed as a repetition: a plugin listed twice is kept twice.  The
    plugins that are not route plugins are exactly those without the
    route capability. *)
Theorem X11_NewPluginRegistry_append (first second : list Plugin) :
  let r1 := NewPluginRegistry route post first in
  let r2 := NewPluginRegistry route post second in
  let r := NewPluginRegistry route post (first ++ second) in
  GetRoutePlugins r = GetRoutePlugins r1 ++ GetRoutePlugins r2
  ∧ GetPostTranslationPlugins r
    = GetPostTranslationPlugins r1 ++ GetPostTranslationPlugins r2
  ∧ GetRoutePlugins r1 `prefix_of` GetRoutePlugins r
  ∧ GetPostTranslationPlugins r1 `prefix_of` GetPostTranslationPlugins r
  ∧ GetRoutePlugins (NewPluginRegistry route post (first ++ first))
    = GetRoutePlugins r1 ++ GetRoutePlugins r1
  ∧ (length (GetRoutePlugins r1)
     + length (List.filter (λ p, negb (route p)) first)
     = length first)%nat
  ∧ (length (GetPostTranslationPlugins r1)
     + length (List.filter (λ p, negb (post p)) first)
     = length first)%nat.
Proof.
  intros r1 r2 r. subst r1 r2 r.
  rewrite !NewPluginRegistry_filter.
  unfold GetRoutePlugins, GetPostTranslationPlugins; simpl.
  rewrite !List.filter_app.
  split_and!; try done.
  - by apply prefix_app_r.
  - by apply prefix_app_r.
  - apply List_filter_length_split.
  - apply List_filter_length_split.
Qed.

End registry_more.

(** ** Further properties of the image override *)

Lemma strings_Split_none (s : string) (sep : ascii) :
  strings_Count s sep = 0%nat → strings_Split s sep = [s].
Proof.
  induction s as [|c s IH]; simpl; [done|].
  destruct (decide (c = sep)); [done|].
  intros Hcount. by rewrite IH.
Qed.

Lemma strings_Split_app_sep (r t : string) (sep : ascii) :
  strings_Count r sep = 0%nat →
  strings_Split (r +:+ String sep t) sep = r :: strings_Split t sep.
Proof.
  induction r as [|c r IH]; simpl.
  - intros _. by rewrite decide_True.
  - destruct (decide (c = sep)); [done|].
    intros Hcount. by rewrite IH.
Qed.

Section image_more.

Context `{!Imports}.

(** X12.  The result of [getDeployerImageValues] always has a ["tag"]
    entry, it has a ["repository"] entry exactly when the value of the
    override variable holds exactly one colon, its keys are among
    ["repository"] and ["tag"], and its values are strings.  Setting the
    variable to a repository and a tag joined by a colon, neither with a
    colon of its own, gives that repository and that tag; a repository
    with a colon in it (a registry with a port) cannot be expressed. *)
Theorem X12_image_override_keys (environ : gmap string string) :
  let image := os_Getenv environ constants_GlooGatewayDeployerImage in
  let values := getDeployerImageValues environ in
  is_Some (values !! "tag")
  ∧ (is_Some (values !! "repository") ↔ strings_Count image colon = 1%nat)
  ∧ (∀ key v, values !! key = Some v →
              (key = "repository" ∨ key = "tag") ∧ ∃ s, v = AStr s)
  ∧ (∀ repository tag,
       strings_Count repository colon = 0%nat →
       strings_Count tag colon = 0%nat →
       image = repository +:+ ":" +:+ tag →
       values = {[ "repository" := AStr repository; "tag" := AStr tag ]})
  ∧ (∀ repository,
       values !! "repository" = Some (AStr repository) →
       strings_Count repository colon = 0%nat).
Proof.
  intros image values.
  assert (values = defaultImageValues ∧ strings_Count image colon ≠ 1%nat
          ∨ ∃ repository tag,
              strings_Split image colon = [repository; tag]
              ∧ values
                = {[ "repository" := AStr repository; "tag" := AStr tag ]})
    as Hcases.
  { pose proof (strings_Split_length image colon) as Hlen. fold image in Hlen.
    destruct (strings_Split image colon) as [|p [|q [|x parts]]] eqn:Hsplit.
    - simpl in Hlen. lia.
    - left. split; [|simpl in Hlen; lia].
      apply getDeployerImageValues_other. fold image. by rewrite Hsplit.
    - right. exists p, q. split; [done|].
      by apply getDeployerImageValues_two.
    - left. split; [|simpl in Hlen; lia].
      apply getDeployerImageValues_other. fold image. rewrite Hsplit.
      simpl. lia. }
  assert (∀ repository tag,
            strings_Split image colon = [repository; tag] →
            strings_Count image colon = 1%nat) as Hone.
  { intros repository tag Hsplit.
    pose proof (strings_Split_length image colon) as Hlen.
    rewrite Hsplit in Hlen. simpl in Hlen. lia. }
  split_and!.
  - destruct Hcases as [[-> _]|(repository & tag & _ & ->)]; by eexists.
  - destruct Hcases as [[-> Hcount]|(repository & tag & Hsplit & ->)].
    + split; [by intros [v Hv]|done].
    + split; [intros _; by eapply Hone|by eexists].
  - intros key v.
    destruct Hcases as [[-> _]|(repository & tag & _ & ->)].
    + unfold defaultImageValues.
      intros [<- <-]%lookup_singleton_Some. split; [by right|by eexists].
    + intros [[<- <-]|[_ [<- <-]%lookup_singleton_Some]]%lookup_insert_Some.
      * split; [by left|by eexists].
      * split; [by right|by eexists].
  - intros repository tag Hr Ht Himage.
    apply getDeployerImageValues_two. fold image. rewrite Himage.
    change (repository +:+ ":" +:+ tag)
      with (repository +:+ String colon tag).
    by rewrite strings_Split_app_sep, strings_Split_none.
  - intros repository.
    destruct Hcases as [[-> _]|(repository' & tag & Hsplit & ->)]; [done|].
    rewrite lookup_insert_eq. intros [= <-].
    by apply strings_Split_two in Hsplit as (_ & Hcount & _).
Qed.

End image_more.

(** ** Loading the chart *)

(** Induction on a file tree, with the hypothesis for every entry of a
    directory. *)
Fixpoint fsNode_nested_ind (P : fsNode → Prop)
    (Hfile : ∀ data, P (fsFile data))
    (Hunlisted : ∀ err, P (fsDir (Err err)))
    (Hdir : ∀ dirs, Forall (λ entry, P entry.2) dirs → P (fsDir (Ok dirs)))
    (d : fsNode) {struct d} : P d :=
  match d with
  | fsFile data => Hfile data
  | fsDir (Err err) => Hunlisted err
  | fsDir (Ok dirs) =>
      Hdir dirs
        ((fix entries (dirs : list (string * fsNode))
            : Forall (λ entry, P entry.2) dirs :=
            match dirs with
            | [] => @List.Forall_nil _ (λ entry, P entry.2)
            | entry :: dirs =>
                @List.Forall_cons _ (λ entry, P entry.2) entry dirs
                  (fsNode_nested_ind P Hfile Hunlisted Hdir entry.2)
                  (entries dirs)
            end) dirs)
  end.

Lemma stripCommonPrefix_app (common targ : list string) :
  stripCommonPrefix common (common ++ targ) = ([], targ).
Proof.
  induction common as [|x common IH]; simpl; [by destruct targ|].
  by rewrite decide_True.
Qed.

Lemma pathElements_valid (name : string) :
  validName name → pathElements name = [name].
Proof.
  intros (Hne & Hdot & Hslash). unfold pathElements.
  rewrite decide_False by tauto. by apply strings_Split_none.
Qed.

Lemma pathElements_below (root p : string) :
  validName root →
  pathElements (root +:+ String slash p) = root :: strings_Split p slash.
Proof.
  intros (Hne & Hdot & Hslash). unfold pathElements.
  rewrite decide_False.
  - by apply strings_Split_app_sep.
  - destruct root as [|c root]; [done|].
    intros [Heq|Heq]; [done|].
    injection Heq as -> Heq. by destruct root.
Qed.

Lemma strings_Split_not_nil (s : string) (sep : ascii) :
  strings_Split s sep ≠ [].
Proof.
  intros Hnil. pose proof (strings_Split_length s sep) as Hlen.
  by rewrite Hnil in Hlen.
Qed.

(** The path of a node below the root, taken from the root. *)
Lemma filepath_Rel_below (root p : string) :
  validName root →
  filepath_Rel root (root +:+ String slash p) = Ok p.
Proof.
  intros Hroot. unfold filepath_Rel.
  rewrite pathElements_valid, pathElements_below by done.
  change (root :: strings_Split p slash)
    with ([root] ++ strings_Split p slash).
  rewrite (stripCommonPrefix_app [root] (strings_Split p slash)). simpl.
  pose proof (strings_Split_not_nil p slash).
  pose proof (strings_Join_Split p slash) as Hjoin.
  destruct (strings_Split p slash); [done|]. by rewrite Hjoin.
Qed.

(** The path of the root, taken from the root. *)
Lemma filepath_Rel_self (root : string) :
  validName root → filepath_Rel root root = Ok ".".
Proof.
  intros Hroot. unfold filepath_Rel.
  rewrite pathElements_valid by done. simpl. by rewrite decide_True.
Qed.

Lemma filepath_Rel_Ok (basepath targpath : string) :
  ∃ relativePath, filepath_Rel basepath targpath = Ok relativePath.
Proof.
  unfold filepath_Rel.
  destruct (stripCommonPrefix _ _) as [base targ].
  destruct (_ ++ _); by eexists.
Qed.

Lemma fs_WalkDir_dir {S : Type}
    (fn : string → fsNode → option error → S → option error * S)
    (name : string) (dirs : list (string * fsNode)) (s : S) :
  fs_WalkDir fn name (fsDir (Ok dirs)) s
  = match fn name (fsDir (Ok dirs)) None s with
    | (Some err, s) => (Some err, s)
    | (None, s) => walkEntries fn name dirs s
    end.
Proof.
  simpl. destruct (fn name (fsDir (Ok dirs)) None s) as [[err|] s']; [done|].
  clear s. revert s'.
  induction dirs as [|[name1 d1] dirs IH]; intros s; simpl; [done|].
  destruct (fs_WalkDir fn (path_Join name name1) d1 s) as [[err|] s'];
    [done|apply IH].
Qed.

Lemma firstReadError_dir (dirs : list (string * fsNode)) :
  firstReadError (fsDir (Ok dirs)) = firstEntryError dirs.
Proof.
  simpl. induction dirs as [|[name1 d1] dirs IH]; simpl; [done|].
  by rewrite IH.
Qed.

Lemma filesBelow_dir (path : string) (dirs : list (string * fsNode)) :
  filesBelow path (fsDir (Ok dirs))
  = dirs ≫= λ entry, filesBelow (path_Join path entry.1) entry.2.
Proof.
  simpl. induction dirs as [|[name1 d1] dirs IH]; simpl; [done|].
  by rewrite IH.
Qed.

Section loadFs_facts.

Variable loader_LoadFiles : list BufferedFile → result Chart.
Variable fmt_entries : list (string * fsNode) → string.

(** The walk stops with the first error of the tree, whatever the path;
    without one it goes through. *)
Lemma fs_WalkDir_outcome_any (root : string) (d : fsNode) :
  ∀ path bufferedFiles,
    ∃ bufferedFiles',
      fs_WalkDir (loadFs_visit root) path d bufferedFiles
      = (firstReadError d, bufferedFiles').
Proof.
  induction d as [data|err|dirs IH] using fsNode_nested_ind;
    intros path bufferedFiles.
  - simpl. destruct data as [data|err]; simpl; [|by eexists].
    destruct (filepath_Rel_Ok root path) as [relativePath ->].
    by eexists.
  - simpl. by eexists.
  - rewrite fs_WalkDir_dir, firstReadError_dir. simpl.
    revert bufferedFiles.
    induction IH as [|[name1 d1] dirs Hd1 _ IHdirs]; intros bufferedFiles;
      simpl; [by eexists|].
    simpl in Hd1.
    destruct (Hd1 (path_Join path name1) bufferedFiles) as [acc ->].
    destruct (firstReadError d1); [by eexists|]. apply IHdirs.
Qed.

Lemma path_Join_below (root p name1 : string) :
  path_Join (root +:+ String slash p) name1
  = root +:+ String slash (path_Join p name1).
Proof.
  unfold path_Join. by rewrite string_append_assoc.
Qed.

(** Below a root with a valid name, a tree without error gives its files
    under their paths from the root. *)
Lemma fs_WalkDir_below (root : string) (d : fsNode) :
  validName root →
  ∀ p bufferedFiles,
    firstReadError d = None →
    fs_WalkDir (loadFs_visit root) (root +:+ String slash p) d bufferedFiles
    = (None, bufferedFiles ++ filesBelow p d).
Proof.
  intros Hroot.
  induction d as [data|err|dirs IH] using fsNode_nested_ind;
    intros p bufferedFiles Hnone.
  - destruct data as [data|err]; [|done]. simpl.
    by rewrite filepath_Rel_below.
  - done.
  - rewrite fs_WalkDir_dir, filesBelow_dir. simpl.
    rewrite firstReadError_dir in Hnone.
    revert bufferedFiles Hnone.
    induction IH as [|[name1 d1] dirs Hd1 _ IHdirs];
      intros bufferedFiles Hnone; simpl.
    + by rewrite app_nil_r.
    + simpl in Hnone, Hd1.
      destruct (firstReadError d1) eqn:Hd1none; [done|].
      rewrite path_Join_below, Hd1 by done.
      rewrite IHdirs by done. by rewrite <- app_assoc.
Qed.

Lemma loadFs_walk_root_any (root : string) (d : fsNode) :
  validName root →
  firstReadError d = None →
  fs_WalkDir (loadFs_visit root) root d [] = (None, chartFiles d).
Proof.
  intros Hroot Hnone. destruct d as [[data|err]|[dirs|err]]; try done.
  - simpl. by rewrite filepath_Rel_self.
  - rewrite fs_WalkDir_dir. simpl.
    rewrite firstReadError_dir in Hnone.
    assert (∀ bufferedFiles,
              walkEntries (loadFs_visit root) root dirs bufferedFiles
              = (None, bufferedFiles
                       ++ (dirs ≫= λ entry, filesBelow entry.1 entry.2)))
      as Hwalk; [|apply (Hwalk [])].
    induction dirs as [|[name1 d1] dirs IH]; intros bufferedFiles; simpl.
    + by rewrite app_nil_r.
    + simpl in Hnone.
      destruct (firstReadError d1) eqn:Hd1; [done|].
      unfold path_Join at 1. rewrite fs_WalkDir_below by done.
      rewrite IH by done. by rewrite <- app_assoc.
Qed.

(** X13.  When [loadFs] refuses a file system.  An error of the listing
    of the top level is returned as it is.  A top level with no entry,
    or with more than one, gives the error ["expected exactly one entry
    in the chart folder, got ..."].  With one entry, the first file that
    cannot be read, or directory that cannot be listed, in the order of
    the walk, gives its error.  In none of these cases does the result
    depend on the loader: no chart is loaded from a part of the files.
    A chart comes back only from a top level of one entry whose tree is
    read without error. *)
Theorem X13_loadFs_refuses :
  (∀ err, loadFs loader_LoadFiles fmt_entries (Err err) = Err err)
  ∧ (∀ entries,
       length entries ≠ 1%nat →
       loadFs loader_LoadFiles fmt_entries (Ok entries)
       = Err (errors_New
                ("expected exactly one entry in the chart folder, got "
                 +:+ fmt_entries entries)))
  ∧ (∀ name d err,
       firstReadError d = Some err →
       loadFs loader_LoadFiles fmt_entries (Ok [(name, d)]) = Err err)
  ∧ (∀ entries chart,
       loadFs loader_LoadFiles fmt_entries (Ok entries) = Ok chart →
       ∃ name d, entries = [(name, d)] ∧ firstReadError d = None).
Proof.
  split_and!.
  - done.
  - intros [|[name d] [|entry entries]] Hlength; simpl in *; done.
  - intros name d err Herr. simpl.
    destruct (fs_WalkDir_outcome_any name d name []) as [files ->].
    by rewrite Herr.
  - intros [|[name d] [|entry entries]] chart; simpl; try done.
    destruct (fs_WalkDir_outcome_any name d name []) as [files ->].
    destruct (firstReadError d) eqn:Herr; [done|].
    intros _. by exists name, d.
Qed.

(** X14.  What [loadFs] loads.  For a file system whose top level is one
    entry with a valid name and whose tree is read without error, the
    loader is given the files of the chart in the order of the walk,
    each with its contents and with its path taken from the top-level
    entry: the files below a top-level directory under their paths from
    it (directories add no file of their own), a top-level file under
    the name ["."].  The name of the top-level entry does not appear and
    does not matter. *)
Theorem X14_loadFs_relative_files (root : string) (d : fsNode) :
  validName root →
  firstReadError d = None →
  loadFs loader_LoadFiles fmt_entries (Ok [(root, d)])
  = loader_LoadFiles (chartFiles d)
  ∧ (∀ root', validName root' →
       loadFs loader_LoadFiles fmt_entries (Ok [(root', d)])
       = loadFs loader_LoadFiles fmt_entries (Ok [(root, d)]))
  ∧ (∀ dirs, d = fsDir (Ok dirs) →
       chartFiles d = dirs ≫= λ entry, filesBelow entry.1 entry.2)
  ∧ (∀ path data, filesBelow path (fsFile (Ok data))
                  = [mkBufferedFile path data])
  ∧ (∀ path dirs,
       filesBelow path (fsDir (Ok dirs))
       = dirs ≫= λ entry,
           filesBelow (path +:+ "/" +:+ entry.1) entry.2).
Proof.
  intros Hroot Hnone.
  assert (∀ name, validName name →
            loadFs loader_LoadFiles fmt_entries (Ok [(name, d)])
            = loader_LoadFiles (chartFiles d)) as Hload.
  { intros name Hname. simpl.
    by rewrite (loadFs_walk_root_any name d Hname Hnone). }
  split_and!.
  - by apply Hload.
  - intros root' Hroot'. by rewrite !Hload.
  - by intros dirs ->.
  - done.
  - apply filesBelow_dir.
Qed.

End loadFs_facts.

(** ** The further properties at work in the small world *)

(** X2 at the manifest of the example. *)
Lemma X2_witness :
  ∃ objs,
    @ConvertYAMLToObjects exampleImports exampleScheme exampleManifest
    = Ok objs
    ∧ Forall (λ o,
                match o with
                | Generic obj =>
                    Ok obj ∈ @yaml_NewYAMLOrJSONDecoder exampleImports
                               exampleManifest
                | Typed realObj =>
                    ∃ obj realObj0,
                      Ok obj ∈ @yaml_NewYAMLOrJSONDecoder exampleImports
                                 exampleManifest
                      ∧ scheme_New exampleScheme (u_GroupVersionKind obj)
                        = Ok (ClientObject realObj0)
                      ∧ @FromUnstructured exampleImports (u_Object obj)
                          realObj0
                        = Ok realObj
                end) objs.
Proof.
  eexists. split.
  - vm_compute. reflexivity.
  - apply (@X2_ConvertYAMLToObjects_provenance exampleImports exampleScheme
             exampleManifest).
    vm_compute. reflexivity.
Defined.

(** X4 at a chart that does not render. *)
Lemma X4_witness :
  ∃ e,
    @GetObjsToDeploy exampleImports failingDeployer ∅ exampleGateway = Err e
    ∧ Error e
      = "failed to get objects to deploy: failed to render helm chart: template: execution error".
Proof.
  eexists. split; [vm_compute; reflexivity|].
  destruct (@X4_error_messages exampleImports failingDeployer ∅
              exampleGateway
              (fmt_Errorf_w "failed to get objects to deploy: "
                 (fmt_Errorf_w "failed to render helm chart: "
                    (errors_New "template: execution error"))))
    as [Hdeploy _].
  destruct Hdeploy as (inner & _ & _ & Hmessage & _).
  - vm_compute. reflexivity.
  - vm_compute. reflexivity.
Defined.


(** X6 at a chart whose manifest does not decode: the cluster is left as
    it was. *)
Lemma X6_witness :
  ∃ e,
    @Deploy exampleImports (list string) brokenManifestDeployer ∅
      exampleGateway exampleClient ["already-there"]
    = (Some e, ["already-there"]).
Proof.
  eexists.
  destruct (@X6_Deploy_end_to_end exampleImports (list string)
              brokenManifestDeployer ∅ exampleGateway exampleClient
              ["already-there"]) as (Herr & _).
  apply Herr. vm_compute. reflexivity.
Defined.

(** X13 at an empty top level and at a folder with a file that cannot be
    read. *)
Lemma X13_witness :
  loadFs exampleLoader exampleFmt (Ok [])
  = Err (errors_New
           ("expected exactly one entry in the chart folder, got "
            +:+ exampleFmt []))
  ∧ loadFs exampleLoader exampleFmt
      (Ok [("gloo-gateway", unreadableChartFolder)])
    = Err (errors_New "read: input/output error").
Proof.
  destruct (X13_loadFs_refuses exampleLoader exampleFmt)
    as (_ & Hcount & Hread & _).
  split.
  - apply Hcount. simpl. lia.
  - apply Hread. reflexivity.
Defined.

(** X14 at a chart folder: four files, those of [templates] under their
    path from the folder; the empty directory [crds] adds nothing. *)
Lemma X14_witness :
  loadFs exampleLoader exampleFmt (Ok [("gloo-gateway", exampleChartFolder)])
  = exampleLoader
      [mkBufferedFile "Chart.yaml" "name: gloo-gateway";
       mkBufferedFile "templates/deployment.yaml" "kind: Deployment";
       mkBufferedFile "templates/service.yaml" "kind: Service";
       mkBufferedFile "values.yaml" "develop: false"].
Proof.
  refine (proj1 (X14_loadFs_relative_files exampleLoader exampleFmt
                   "gloo-gateway" exampleChartFolder _ _)).
  - split; [discriminate|]. split; [discriminate|reflexivity].
  - reflexivity.
Defined.
